(** * Transaction-execution core of the Uniswap gateway (backend/uniswap-backend.py)

    A shallow embedding of the helper functions and request handlers of
    [backend/uniswap-backend.py], followed by the properties of the
    specification that were checked against them.

    Conventions of the embedding:
    - a Python [int] is a [Z]; [//] is [Z.div] (both floor, and both give
      the remainder the sign of the divisor), with division by zero raising;
    - a Python [str] is a [string], [bytes] a [list byte];
    - a call that may raise returns a [result];
    - a [dict] is a [gmap string pyval]; a function that mutates the
      dictionary it was given returns the dictionary as it is left,
      also when the call raises;
    - the JSON-RPC node, the contracts behind it and the signer are a
      record of answers ([Node]); log records and submissions are appended
      to a list of [event]s. *)

From Stdlib Require Import ZArith Lia Bool List Ascii String Sorted.
From Stdlib Require Import DecimalString DecimalZ DecimalN DecimalPos.
From Stdlib.Strings Require Import Byte.
From stdpp Require Import base option list strings gmap.

Open Scope Z_scope.

(* ===================================================================== *)
(** * Python values, exceptions and results *)
(* ===================================================================== *)

Module Py.

(** Exceptions the modelled code raises or lets through.  [NodeError] is
    any exception coming out of a provider, contract or signer call.
    [HTTPFailure status prefix cause] is
    [HTTPException(status, f"{prefix}{cause}")]. *)
Inductive exn : Type :=
| ValueError
| OverflowError
| IndexError
| ZeroDivisionError
| AttributeError
| NodeError (msg : string)
| HTTPException (status_code : Z) (detail : string)
| HTTPFailure (status_code : Z) (prefix : string) (cause : exn).

Inductive result (A : Type) : Type :=
| Ok (a : A)
| Raise (e : exn).
Arguments Ok {A} a.
Arguments Raise {A} e.

Definition rbind {A B} (r : result A) (k : A -> result B) : result B :=
  match r with
  | Ok a => k a
  | Raise e => Raise e
  end.

Definition is_ok {A} (r : result A) : bool :=
  match r with Ok _ => true | Raise _ => false end.

(** Values stored in dictionaries and passed to the logger. *)
#[warnings="-register-all"]
Inductive pyval : Type :=
| VNone
| VInt (n : Z)
| VStr (s : string)
| VBytes (b : list byte)
| VList (l : list pyval).

(** [x or y] on optional strings: [None] and the empty string are falsy. *)
Definition truthy_str (o : option string) : option string :=
  match o with
  | Some EmptyString => None
  | other => other
  end.

(** [x or y] on optional integers: [None] and [0] are falsy. *)
Definition truthy_int (o : option Z) : option Z :=
  match o with
  | Some 0 => None
  | other => other
  end.

(** ** [str(n)] and [int(s)] *)

(** [str(n)] for an [int]: decimal digits, a leading [-] when negative. *)
Definition str (n : Z) : string := NilZero.string_of_int (Z.to_int n).

Definition digit_of_ascii (c : ascii) : option Z :=
  let n := Z.of_N (N_of_ascii c) in
  if (48 <=? n) && (n <=? 57) then Some (n - 48) else None.

(** Characters removed by [str.strip()] inside [int(s)] (ASCII range). *)
Definition is_space (c : ascii) : bool :=
  let n := Z.of_N (N_of_ascii c) in
  ((9 <=? n) && (n <=? 13)) || ((28 <=? n) && (n <=? 32)).

Fixpoint lstrip (s : string) : string :=
  match s with
  | String c r => if is_space c then lstrip r else s
  | EmptyString => EmptyString
  end.

Fixpoint rstrip (s : string) : string :=
  match s with
  | String c r =>
      match rstrip r with
      | EmptyString => if is_space c then EmptyString else String c EmptyString
      | r' => String c r'
      end
  | EmptyString => EmptyString
  end.

(** Digits with single underscores between them, most significant first;
    [after_digit] tells whether the previous character was a digit. *)
Fixpoint digits_value (acc : Z) (after_digit : bool) (s : string) : option Z :=
  match s with
  | EmptyString => if after_digit then Some acc else None
  | String c r =>
      match digit_of_ascii c with
      | Some d => digits_value (10 * acc + d) true r
      | None =>
          if (c =? "_")%char && after_digit then digits_value acc false r
          else None
      end
  end.

Definition int_literal (s : string) : option Z :=
  match s with
  | String "-" r => option_map Z.opp (digits_value 0 false r)
  | String "+" r => digits_value 0 false r
  | _ => digits_value 0 false s
  end.

(** [int(s)] for a [str] in base 10 (ASCII digits). *)
Definition int (s : string) : result Z :=
  match int_literal (rstrip (lstrip s)) with
  | Some n => Ok n
  | None => Raise ValueError
  end.

(** [a // b] *)
Definition floordiv (a b : Z) : result Z :=
  if b =? 0 then Raise ZeroDivisionError else Ok (a / b).

(** ** [a / b] on two [int]s, followed by [int(...)]

    CPython's true division of integers returns the binary64 number
    nearest to the exact quotient (ties to even) and raises
    [OverflowError] when that number is not finite.  A finite binary64
    value is kept as [mant * 2 ^ expo]. *)
Record float : Type := { mant : Z; expo : Z }.

(** Exponent [e] of the unit in the last place of [a / b], for [0 < a] and
    [0 < b]: [2^52 <= a / (b * 2^e) < 2^53], never below the subnormal
    exponent [-1074]. *)
Definition ulp_exponent (a b : Z) : Z :=
  let d := Z.log2 a - Z.log2 b in
  let ge := if 0 <=? d then b * 2 ^ d <=? a else b <=? a * 2 ^ (- d) in
  Z.max (-1074) ((if ge then d else d - 1) - 52).

(** Nearest integer to [n / d] for [0 <= n] and [0 < d], ties to even. *)
Definition round_half_even (n d : Z) : Z :=
  let q := n / d in
  let r := n mod d in
  if (d <? 2 * r) || ((d =? 2 * r) && Z.odd q) then q + 1 else q.

Definition truediv_pos (a b : Z) : result float :=
  let e := ulp_exponent a b in
  let m := if 0 <=? e then round_half_even a (b * 2 ^ e)
           else round_half_even (a * 2 ^ (- e)) b in
  if 2 ^ 1024 <=? m * 2 ^ e then Raise OverflowError
  else Ok {| mant := m; expo := e |}.

Definition truediv (a b : Z) : result float :=
  if b =? 0 then Raise ZeroDivisionError
  else if a =? 0 then Ok {| mant := 0; expo := 0 |}
  else
    match truediv_pos (Z.abs a) (Z.abs b) with
    | Ok f => Ok {| mant := Z.sgn a * Z.sgn b * mant f; expo := expo f |}
    | Raise e => Raise e
    end.

(** [int(x)] for a finite [float]: truncation towards zero. *)
Definition int_of_float (x : float) : Z :=
  if 0 <=? expo x then mant x * 2 ^ expo x
  else Z.quot (mant x) (2 ^ (- expo x)).

End Py.

(* ===================================================================== *)
(** * The web3.py helpers the backend calls *)
(* ===================================================================== *)

(** web3.py and eth-utils are libraries, not code of this repository;
    the functions below follow what the versions pinned in the file's
    requirements (web3 6.20) do on the arguments the backend passes. *)
Module Web3.
Import Py.

Definition hex_digit_value (c : ascii) : option N :=
  let n := N_of_ascii c in
  if ((48 <=? n) && (n <=? 57))%N then Some (n - 48)%N
  else if ((97 <=? n) && (n <=? 102))%N then Some (n - 87)%N
  else if ((65 <=? n) && (n <=? 70))%N then Some (n - 55)%N
  else None.

Definition is_hex_digit (c : ascii) : bool :=
  match hex_digit_value c with Some _ => true | None => false end.

Fixpoint all_hex (s : string) : bool :=
  match s with
  | EmptyString => true
  | String c r => is_hex_digit c && all_hex r
  end.

Definition lower_char (c : ascii) : ascii :=
  let n := N_of_ascii c in
  if ((65 <=? n) && (n <=? 90))%N then ascii_of_N (n + 32) else c.

Definition upper_char (c : ascii) : ascii :=
  let n := N_of_ascii c in
  if ((97 <=? n) && (n <=? 122))%N then ascii_of_N (n - 32) else c.

Fixpoint lower (s : string) : string :=
  match s with
  | EmptyString => EmptyString
  | String c r => String (lower_char c) (lower r)
  end.

Definition is_0x_prefixed (s : string) : bool :=
  match s with
  | String c1 (String c2 _) => (c1 =? "0")%char && ((c2 =? "x")%char || (c2 =? "X")%char)
  | _ => false
  end.

Definition remove_0x_prefix (s : string) : string :=
  if is_0x_prefixed s then
    match s with
    | String _ (String _ r) => r
    | _ => s
    end
  else s.

Definition add_0x_prefix (s : string) : string :=
  if is_0x_prefixed s then s else String "0" (String "x" s).

Definition is_empty (s : string) : bool :=
  match s with EmptyString => true | _ => false end.

(** [is_hexstr]: a non-empty text matching [(0x)?[0-9a-f]*], any case. *)
Definition is_hexstr (s : string) : bool :=
  negb (is_empty s) && all_hex (remove_0x_prefix s).

(** [is_hex_address]: the text matches [(0x)?[0-9a-f]{40}], any case. *)
Definition is_hex_address (s : string) : bool :=
  let body := remove_0x_prefix s in
  (String.length body =? 40)%nat && all_hex body.

(** [to_normalized_address] on a [str]: the lower-case, prefixed form.
    A text with something after the prefix must be a hex string; the
    lower-cased, prefixed text must be a hex address. *)
Definition to_normalized_address (value : string) : result string :=
  if negb (is_empty (remove_0x_prefix value)) && negb (is_hexstr value)
  then Raise ValueError
  else
    let hex_address := lower (add_0x_prefix (lower value)) in
    if is_hex_address hex_address then Ok hex_address else Raise ValueError.

Section Checksum.

(** [checksum_upper a i]: whether hexadecimal digit [i] of the Keccak-256
    digest of the text [a] (the address without prefix) exceeds 7.  The
    digest is not computed here. *)
Variable checksum_upper : string -> nat -> bool.

Fixpoint checksum_case (a : string) (i : nat) (s : string) : string :=
  match s with
  | EmptyString => EmptyString
  | String c r =>
      String (if checksum_upper a i then upper_char c else c)
             (checksum_case a (S i) r)
  end.

(** [Web3.to_checksum_address] on a [str] (EIP-55 capitalisation). *)
Definition to_checksum_address (value : string) : result string :=
  match to_normalized_address value with
  | Ok norm =>
      let a := remove_0x_prefix norm in
      Ok (String "0" (String "x" (checksum_case a 0 a)))
  | Raise e => Raise e
  end.

End Checksum.

Definition byte_of_nibbles (hi lo : N) : option byte := Byte.of_N (16 * hi + lo).

(** [binascii.unhexlify] *)
Fixpoint unhexlify (s : string) : option (list byte) :=
  match s with
  | EmptyString => Some []
  | String _ EmptyString => None
  | String h (String l r) =>
      match hex_digit_value h, hex_digit_value l, unhexlify r with
      | Some x, Some y, Some bs =>
          match byte_of_nibbles x y with
          | Some b => Some (b :: bs)
          | None => None
          end
      | _, _, _ => None
      end
  end.

(** [Web3.to_bytes(hexstr=s)]: an odd number of characters is padded with
    a leading zero digit, then the digits are decoded in pairs. *)
Definition to_bytes_hexstr (s : string) : result (list byte) :=
  let s' := if Nat.odd (String.length s)
            then String "0" (String "x" (String "0" (remove_0x_prefix s)))
            else s in
  match unhexlify (remove_0x_prefix s') with
  | Some bs => Ok bs
  | None => Raise ValueError
  end.

(** [n.to_bytes(3, 'big')] *)
Definition int_to_bytes3 (n : Z) : result (list byte) :=
  if (0 <=? n) && (n <? 2 ^ 24) then
    match Byte.of_N (Z.to_N (n / 65536)),
          Byte.of_N (Z.to_N ((n / 256) mod 256)),
          Byte.of_N (Z.to_N (n mod 256)) with
    | Some b2, Some b1, Some b0 => Ok [b2; b1; b0]
    | _, _, _ => Raise OverflowError
    end
  else Raise OverflowError.

(** [w3.to_wei(1, 'gwei')] *)
Definition one_gwei : Z := 1000000000.

Definition hex_char (n : N) : ascii :=
  if (n <? 10)%N then ascii_of_N (48 + n) else ascii_of_N (87 + n).

(** [HexBytes.hex()]: lower-case digits after a [0x] prefix. *)
Fixpoint hexlify (bs : list byte) : string :=
  match bs with
  | [] => EmptyString
  | b :: r =>
      String (hex_char (Byte.to_N b / 16)) (String (hex_char (Byte.to_N b mod 16)) (hexlify r))
  end.

Definition hexbytes_hex (bs : list byte) : string := String "0" (String "x" (hexlify bs)).

End Web3.

(* ===================================================================== *)
(** * The backend: configuration, node, effects *)
(* ===================================================================== *)

Module Backend.
Import Py Web3.

Abbreviation dict := (gmap string pyval).

Notation "'let+' x ':=' r 'in' k" := (rbind r (fun x => k))
  (at level 10, x pattern, r at level 100, k at level 200).

(** [d.setdefault(k, v)] *)
Definition setdefault (k : string) (v : pyval) (d : dict) : dict :=
  match d !! k with
  | Some _ => d
  | None => <[k := v]> d
  end.

(** [l[-1]] *)
Definition last_item {A} (l : list A) : result A :=
  match last l with
  | Some x => Ok x
  | None => Raise IndexError
  end.

(** [l[i]] for a non-negative index *)
Definition item {A} (l : list A) (i : nat) : result A :=
  match l !! i with
  | Some x => Ok x
  | None => Raise IndexError
  end.

(** [[f(x) for x in l]] when [f] may raise: the first failure wins. *)
Fixpoint comprehension {A B} (f : A -> result B) (l : list A) : result (list B) :=
  match l with
  | [] => Ok []
  | x :: r =>
      let+ y := f x in
      let+ ys := comprehension f r in
      Ok (y :: ys)
  end.

(** Module-level settings read from the environment at start-up.  [acct]
    is the address of the account made from [PRIVATE_KEY], [None] when no
    key is configured; [rate_table] and [log_table] tell whether the
    DynamoDB tables exist. *)
Record Config : Type := {
  CHAIN_ID : Z;
  acct : option string;
  DEFAULT_RECIPIENT : option string;
  RATE_LIMIT : Z;
  RATE_WINDOW : Z;
  rate_table : bool;
  log_table : bool;
  PRIVATE_RPC_URL : option string
}.

Inductive endpoint : Type :=
| Primary
| PrivateRelay (url : string).

(** Router calls the handlers build, with their arguments in ABI order. *)
Inductive call : Type :=
| swapExactTokensForTokens
    (amountIn amountOutMin : Z) (path : list string) (to : string) (deadline : Z)
| swapExactTokensForTokensSupportingFeeOnTransferTokens
    (amountIn amountOutMin : Z) (path : list string) (to : string) (deadline : Z)
| exactInputSingle
    (tokenIn tokenOut : string) (fee : Z) (recipient : string)
    (deadline amountIn amountOutMinimum sqrtPriceLimitX96 : Z)
| exactInput
    (path : list byte) (recipient : string) (deadline amountIn amountOutMinimum : Z).

(** [w3.eth.fee_history(5, 'latest', [15])]: the base fees and, when the
    node reports them, one row of reward percentiles per block. *)
Record FeeHistory : Type := {
  baseFeePerGas : list Z;
  reward : option (list (list Z))
}.

(** What the outside world answers during one request. *)
Record Node : Type := {
  fee_history : result FeeHistory;
  gas_price : result Z;
  get_transaction_count : string -> result Z;
  estimate_gas : dict -> result Z;
  getAmountsOut : Z -> list string -> result (list Z);
  quoteExactInputSingle : string -> string -> Z -> Z -> Z -> result Z;
  quoteExactInput : list byte -> Z -> result Z;
  build_transaction : call -> string -> result dict;
  sign_transaction : dict -> result (list byte);
  new_provider : string -> result unit;
  send_raw_transaction : endpoint -> list byte -> result (list byte);
  update_item_fault : option exn;
  put_item_fault : option exn
}.

(** What a request leaves behind: log records, and the calls that build
    a transaction ([BuildTx], recorded when [build_transaction] is
    invoked) or hand one to an endpoint ([SendRaw], recorded when
    [send_raw_transaction] is invoked). *)
Inductive event : Type :=
| LogWarning (template : string) (cause : exn)
| LogSwap (tx_hash : string) (meta : list (string * pyval))
| BuildTx (c : call)
| SendRaw (target : endpoint) (raw : list byte)
| PutLog (pk : string) (ts : Z) (meta : list (string * pyval)).

(** Process and table state that outlives a request. *)
Record State : Type := {
  events : list event;
  _rate_cache : gmap (string * Z) Z;
  rate_items : gmap string (Z * Z)
}.

Definition set_events (f : list event -> list event) (s : State) : State :=
  {| events := f (events s); _rate_cache := _rate_cache s; rate_items := rate_items s |}.

Definition set_rate_cache (f : gmap (string * Z) Z -> gmap (string * Z) Z) (s : State) : State :=
  {| events := events s; _rate_cache := f (_rate_cache s); rate_items := rate_items s |}.

Definition set_rate_items (f : gmap string (Z * Z) -> gmap string (Z * Z)) (s : State) : State :=
  {| events := events s; _rate_cache := _rate_cache s; rate_items := f (rate_items s) |}.

(** Computations that change the state and may raise; what was done
    before an exception stays done. *)
Definition M (A : Type) : Type := State -> State * result A.

Definition ret {A} (a : A) : M A := fun s => (s, Ok a).

Definition raise {A} (e : exn) : M A := fun s => (s, Raise e).

Definition lift {A} (r : result A) : M A := fun s => (s, r).

Definition bind {A B} (m : M A) (k : A -> M B) : M B :=
  fun s =>
    match m s with
    | (s', Ok a) => k a s'
    | (s', Raise e) => (s', Raise e)
    end.

Definition try_except {A} (m : M A) (handler : exn -> M A) : M A :=
  fun s =>
    match m s with
    | (s', Raise e) => handler e s'
    | done => done
    end.

Definition emit (e : event) : M unit :=
  fun s => (set_events (fun l => l ++ [e]) s, Ok tt).

Definition get_state : M State := fun s => (s, Ok s).

Definition modify (f : State -> State) : M unit := fun s => (f s, Ok tt).

Notation "'let*' x ':=' m 'in' k" := (bind m (fun x => k))
  (at level 10, x pattern, m at level 100, k at level 200).

Definition of_fault (f : option exn) : result unit :=
  match f with
  | Some e => Raise e
  | None => Ok tt
  end.

(* --------------------------------------------------------------------- *)
(** ** Helpers *)

Definition now_plus (now seconds : Z) : Z := now + seconds.

(* --------------------------------------------------------------------- *)
(** ** Gas / fees (EIP-1559) *)

(** [sum(int(r[0]) for r in rewards)] *)
Fixpoint sum_first (acc : Z) (rewards : list (list Z)) : result Z :=
  match rewards with
  | [] => Ok acc
  | r :: rest =>
      let+ x := item r 0 in
      sum_first (acc + x) rest
  end.

Definition suggest_fees (n : Node) : result (Z * Z) :=
  let attempt :=
    let+ hist := fee_history n in
    let+ base := last_item (baseFeePerGas hist) in
    let rewards := default [] (reward hist) in
    let+ tip :=
      match rewards with
      | _ :: _ =>
          let+ total := sum_first 0 rewards in
          let+ mean := truediv total (Z.max (Z.of_nat (length rewards)) 1) in
          Ok (int_of_float mean)
      | [] => Ok one_gwei
      end in
    let max_fee := base + tip * 2 in
    Ok (max_fee, tip) in
  match attempt with
  | Ok fees => Ok fees
  | Raise _ =>
      let+ gp := gas_price n in
      Ok (gp, one_gwei)
  end.

(** The dictionary is changed in place; the first component is the
    dictionary as the call leaves it, whether it returns or raises. *)
Definition with_fees_and_nonce (cfg : Config) (n : Node) (tx : dict)
  : dict * result unit :=
  match suggest_fees n with
  | Raise e => (tx, Raise e)
  | Ok (max_fee, tip) =>
      let tx := setdefault "chainId" (VInt (CHAIN_ID cfg)) tx in
      match acct cfg with
      | None => (tx, Raise AttributeError)
      | Some address =>
          match get_transaction_count n address with
          | Raise e => (tx, Raise e)
          | Ok count =>
              let tx := setdefault "nonce" (VInt count) tx in
              let tx := setdefault "type" (VInt 2) tx in
              let tx := setdefault "maxFeePerGas" (VInt max_fee) tx in
              let tx := setdefault "maxPriorityFeePerGas" (VInt tip) tx in
              (tx, Ok tt)
          end
      end
  end.

Definition estimate_and_fill_gas (n : Node) (tx : dict) : M dict :=
  try_except
    (let* gas := lift (estimate_gas n tx) in
     ret (setdefault "gas" (VInt (gas * 12 / 10)) tx))
    (fun e =>
       let* _ := emit (LogWarning "Gas estimation failed, sending without gas: %s" e) in
       ret tx).

Definition send_signed (cfg : Config) (n : Node) (tx : dict) : M string :=
  let* provider :=
    match truthy_str (PRIVATE_RPC_URL cfg) with
    | Some url =>
        try_except
          (let* _ := lift (new_provider n url) in ret (PrivateRelay url))
          (fun e =>
             let* _ := emit (LogWarning "Private RPC init failed: %s" e) in
             ret Primary)
    | None => ret Primary
    end in
  let* signed := lift (sign_transaction n tx) in
  let* _ := emit (SendRaw provider signed) in
  let* tx_hash := lift (send_raw_transaction n provider signed) in
  ret (hexbytes_hex tx_hash).

(* --------------------------------------------------------------------- *)
(** ** V3 path encoding *)

Section Encoding.

Variable checksum_upper : string -> nat -> bool.

(** [Web3.to_bytes(hexstr=Web3.to_checksum_address(token))] *)
Definition address_bytes (token : string) : result (list byte) :=
  let+ a := to_checksum_address checksum_upper token in
  to_bytes_hexstr a.

(** The body of [for i in range(len(fees))], from index [i] on, for
    [todo] more rounds. *)
Fixpoint encode_hops (tokens : list string) (fees : list Z)
    (todo i : nat) (path : list byte) : result (list byte) :=
  match todo with
  | O => Ok path
  | S todo' =>
      let+ token := item tokens i in
      let+ a := address_bytes token in
      let path := path ++ a in
      let+ fee := item fees i in
      let+ f := int_to_bytes3 fee in
      let path := path ++ f in
      encode_hops tokens fees todo' (S i) path
  end.

Definition encode_v3_path (tokens : list string) (fees : list Z) : result (list byte) :=
  if negb (Z.of_nat (length fees) =? Z.of_nat (length tokens) - 1)
  then Raise ValueError
  else
    let+ path := encode_hops tokens fees (length fees) 0 [] in
    let+ token := last_item tokens in
    let+ a := address_bytes token in
    Ok (path ++ a).

End Encoding.

(* --------------------------------------------------------------------- *)
(** ** Simple DDB logging *)

Definition log_swap (cfg : Config) (n : Node) (now : Z)
    (tx_hash : string) (meta : list (string * pyval)) : M unit :=
  let* _ := emit (LogSwap tx_hash meta) in
  if log_table cfg then
    try_except
      (let* _ := lift (of_fault (put_item_fault n)) in
       emit (PutLog tx_hash now meta))
      (fun e => emit (LogWarning "DDB put_item failed: %s" e))
  else ret tt.

(* --------------------------------------------------------------------- *)
(** ** Auth & rate limiting *)

(** The two request attributes the limiter reads: the [X-API-Key] header
    and [request.client.host] ([None] when [request.client] is [None]). *)
Record Request : Type := {
  x_api_key : option string;
  client_host : option string
}.

Definition _rate_key (key : string) : string := "rate::" ++ key.

Definition rate_limit_detail (cfg : Config) (count : Z) : string :=
  "Rate limit exceeded: " ++ str count ++ "/" ++ str (RATE_LIMIT cfg)
    ++ " in " ++ str (RATE_WINDOW cfg) ++ "s".

(** [request.headers.get('X-API-Key') or request.client.host or 'anon'] *)
Definition request_ident (request : Request) : result string :=
  match truthy_str (x_api_key request) with
  | Some k => Ok k
  | None =>
      match client_host request with
      | None => Raise AttributeError
      | Some h =>
          match truthy_str (Some h) with
          | Some h' => Ok h'
          | None => Ok "anon"%string
          end
      end
  end.

(** The [if rate_table:] block.  An [HTTPException] raised inside it is
    re-raised; any other exception is logged and leaves the decision to
    the local limiter. *)
Definition distributed_limit (cfg : Config) (n : Node) (ident : string) (window : Z)
  : M unit :=
  let rk := _rate_key ident in
  try_except
    (let* _ := lift (of_fault (update_item_fault n)) in
     let* s := get_state in
     let new_item :=
       match rate_items s !! rk with
       | Some (w, c) => (w, c + 1)
       | None => (window, 0 + 1)
       end in
     let* _ := modify (set_rate_items (fun t => <[rk := new_item]> t)) in
     let* count :=
       if negb (fst new_item =? window) then
         let* _ := lift (of_fault (put_item_fault n)) in
         let* _ := modify (set_rate_items (fun t => <[rk := (window, 1)]> t)) in
         ret 1
       else ret (snd new_item) in
     if RATE_LIMIT cfg <? count
     then raise (HTTPException 429 (rate_limit_detail cfg count))
     else ret tt)
    (fun e =>
       match e with
       | HTTPException _ _ | HTTPFailure _ _ _ => raise e
       | _ => emit (LogWarning "Rate table error: %s" e)
       end).

(** The local limiter: count under the key [(ident, window)], then drop
    every entry of another window. *)
Definition local_limit (cfg : Config) (ident : string) (window : Z) : M unit :=
  let key := (ident, window) in
  let* s := get_state in
  let cnt := default 0 (_rate_cache s !! key) + 1 in
  let* _ := modify (set_rate_cache (fun c => <[key := cnt]> c)) in
  let* _ := modify (set_rate_cache (fun c => filter (fun kv => snd (fst kv) = window) c)) in
  if RATE_LIMIT cfg <? cnt
  then raise (HTTPException 429 (rate_limit_detail cfg cnt))
  else ret tt.

Definition rate_limit_dep (cfg : Config) (n : Node) (now : Z) (request : Request)
  : M unit :=
  let* ident := lift (request_ident request) in
  let* window := lift (floordiv now (RATE_WINDOW cfg)) in
  let* _ := if rate_table cfg then distributed_limit cfg n ident window else ret tt in
  local_limit cfg ident window.

(* --------------------------------------------------------------------- *)
(** ** Schemas *)

Module SwapV2Body.
Record t : Type := {
  amount_in : string;
  amount_out_min : option string;
  path : list string;
  to : option string;
  deadline : option Z;
  slippage_bps : Z;
  support_fee_on_transfer : bool
}.
End SwapV2Body.

Module SwapV3Body.
Record t : Type := {
  token_in : string;
  token_out : string;
  fee : Z;
  amount_in : string;
  amount_out_min : option string;
  recipient : option string;
  deadline : option Z;
  sqrt_price_limit_x96 : Z;
  slippage_bps : Z
}.
End SwapV3Body.

Module SwapV3MultiBody.
Record t : Type := {
  tokens : list string;
  fees : list Z;
  amount_in : string;
  amount_out_min : option string;
  recipient : option string;
  deadline : option Z;
  slippage_bps : Z
}.
End SwapV3MultiBody.

(* --------------------------------------------------------------------- *)
(** ** Swap handlers *)

(** The value a mutating helper hands back: the dictionary it was given. *)
Definition returned (p : dict * result unit) : result dict :=
  let+ _ := snd p in Ok (fst p).

(** [x or DEFAULT_RECIPIENT or acct.address] *)
Definition recipient_or_default (cfg : Config) (address : string) (x : option string) : string :=
  match truthy_str x with
  | Some a => a
  | None =>
      match truthy_str (DEFAULT_RECIPIENT cfg) with
      | Some a => a
      | None => address
      end
  end.

(** [str(quoted_out * (10_000 - slippage_bps) // 10_000)] *)
Definition min_out_from_quote (quoted_out slippage_bps : Z) : string :=
  str (quoted_out * (10000 - slippage_bps) / 10000).

Definition no_key : exn := HTTPException 400 "Server has no PRIVATE_KEY configured".

Section Handlers.

Variable checksum_upper : string -> nat -> bool.
Variable cfg : Config.
Variable n : Node.
Variable now : Z.

Let checksum := to_checksum_address checksum_upper.

(** [fn(...).build_transaction({"from": address})] *)
Definition build (c : call) (address : string) : M dict :=
  let* _ := emit (BuildTx c) in
  lift (build_transaction n c address).

(** [tx = with_fees_and_nonce(tx); tx = estimate_and_fill_gas(tx);
    tx_hash = send_signed(tx)] *)
Definition fill_and_send (tx : dict) : M string :=
  let* tx := lift (returned (with_fees_and_nonce cfg n tx)) in
  let* tx := estimate_and_fill_gas n tx in
  send_signed cfg n tx.

Definition v2_swap (body : SwapV2Body.t) : M string :=
  match acct cfg with
  | None => raise no_key
  | Some address =>
      let* to_addr := lift (checksum (recipient_or_default cfg address (SwapV2Body.to body))) in
      let deadline := default (now_plus now 300) (truthy_int (SwapV2Body.deadline body)) in
      let* amount_out_min :=
        match SwapV2Body.amount_out_min body with
        | Some given => ret given
        | None =>
            let* amount_in := lift (int (SwapV2Body.amount_in body)) in
            let* path := lift (comprehension checksum (SwapV2Body.path body)) in
            let* amounts := lift (getAmountsOut n amount_in path) in
            let* quoted_out := lift (last_item amounts) in
            ret (min_out_from_quote quoted_out (SwapV2Body.slippage_bps body))
        end in
      try_except
        (let fn := if SwapV2Body.support_fee_on_transfer body
                   then swapExactTokensForTokensSupportingFeeOnTransferTokens
                   else swapExactTokensForTokens in
         let* amount_in := lift (int (SwapV2Body.amount_in body)) in
         let* min_out := lift (int amount_out_min) in
         let* path := lift (comprehension checksum (SwapV2Body.path body)) in
         let* tx := build (fn amount_in min_out path to_addr deadline) address in
         let* tx_hash := fill_and_send tx in
         let* _ := log_swap cfg n now tx_hash
                     [("version", VStr "v2");
                      ("path", VList (map VStr (SwapV2Body.path body)));
                      ("amount_in", VStr (SwapV2Body.amount_in body));
                      ("amount_out_min", VStr amount_out_min)]%string in
         ret tx_hash)
        (fun e => raise (HTTPFailure 400 "v2 swap failed: " e))
  end.

Definition v3_swap (body : SwapV3Body.t) : M string :=
  match acct cfg with
  | None => raise no_key
  | Some address =>
      let* amount_out_min :=
        match SwapV3Body.amount_out_min body with
        | Some given => ret given
        | None =>
            let* token_in := lift (checksum (SwapV3Body.token_in body)) in
            let* token_out := lift (checksum (SwapV3Body.token_out body)) in
            let* amount_in := lift (int (SwapV3Body.amount_in body)) in
            let* out_amt := lift (quoteExactInputSingle n token_in token_out
                                    (SwapV3Body.fee body) amount_in
                                    (SwapV3Body.sqrt_price_limit_x96 body)) in
            ret (min_out_from_quote out_amt (SwapV3Body.slippage_bps body))
        end in
      let* token_in := lift (checksum (SwapV3Body.token_in body)) in
      let* token_out := lift (checksum (SwapV3Body.token_out body)) in
      let* recipient := lift (checksum (recipient_or_default cfg address (SwapV3Body.recipient body))) in
      let deadline := default (now_plus now 300) (truthy_int (SwapV3Body.deadline body)) in
      let* amount_in := lift (int (SwapV3Body.amount_in body)) in
      let* min_out := lift (int amount_out_min) in
      let params := exactInputSingle token_in token_out (SwapV3Body.fee body) recipient
                      deadline amount_in min_out (SwapV3Body.sqrt_price_limit_x96 body) in
      try_except
        (let* tx := build params address in
         let* tx_hash := fill_and_send tx in
         let* _ := log_swap cfg n now tx_hash
                     [("version", VStr "v3");
                      ("token_in", VStr (SwapV3Body.token_in body));
                      ("token_out", VStr (SwapV3Body.token_out body));
                      ("fee", VInt (SwapV3Body.fee body));
                      ("amount_in", VStr (SwapV3Body.amount_in body));
                      ("amount_out_min", VStr amount_out_min)]%string in
         ret tx_hash)
        (fun e => raise (HTTPFailure 400 "v3 swap failed: " e))
  end.

Definition v3_swap_multi (body : SwapV3MultiBody.t) : M string :=
  match acct cfg with
  | None => raise no_key
  | Some address =>
      try_except
        (let* amount_out_min :=
           match SwapV3MultiBody.amount_out_min body with
           | Some given => ret given
           | None =>
               let* path_q := lift (encode_v3_path checksum_upper
                                      (SwapV3MultiBody.tokens body) (SwapV3MultiBody.fees body)) in
               let* amount_in := lift (int (SwapV3MultiBody.amount_in body)) in
               let* out_amt := lift (quoteExactInput n path_q amount_in) in
               ret (min_out_from_quote out_amt (SwapV3MultiBody.slippage_bps body))
           end in
         let* path := lift (encode_v3_path checksum_upper
                              (SwapV3MultiBody.tokens body) (SwapV3MultiBody.fees body)) in
         let* recipient := lift (checksum (recipient_or_default cfg address (SwapV3MultiBody.recipient body))) in
         let deadline := now_plus now 300 in
         let* amount_in := lift (int (SwapV3MultiBody.amount_in body)) in
         let* min_out := lift (int amount_out_min) in
         let* tx := build (exactInput path recipient deadline amount_in min_out) address in
         let* tx_hash := fill_and_send tx in
         let* _ := log_swap cfg n now tx_hash
                     [("version", VStr "v3-multi");
                      ("tokens", VList (map VStr (SwapV3MultiBody.tokens body)));
                      ("fees", VList (map VInt (SwapV3MultiBody.fees body)));
                      ("amount_in", VStr (SwapV3MultiBody.amount_in body));
                      ("amount_out_min", VStr amount_out_min)]%string in
         ret tx_hash)
        (fun e => raise (HTTPFailure 400 "v3 multihop swap failed: " e))
  end.

End Handlers.

End Backend.

(* ===================================================================== *)
(** * The backend: authentication, quotes, receipts *)
(* ===================================================================== *)

Module Endpoints.
Import Py Web3 Backend.

(** [API_KEY] is the module-level setting of that name, [None] when the
    environment does not define it. *)
Definition auth_dep (API_KEY : option string) (request : Request) : result unit :=
  match truthy_str API_KEY with
  | None => Ok tt
  | Some expected =>
      if decide (x_api_key request = Some expected) then Ok tt
      else Raise (HTTPException 401 "Unauthorized")
  end.

Module QuoteV2Body.
Record t : Type := { amount_in : string; path : list string }.
End QuoteV2Body.

Module QuoteV3Body.
Record t : Type := {
  token_in : string;
  token_out : string;
  fee : Z;
  amount_in : string;
  sqrt_price_limit_x96 : Z
}.
End QuoteV3Body.

Module QuoteV3MultiBody.
Record t : Type := { tokens : list string; fees : list Z; amount_in : string }.
End QuoteV3MultiBody.

Section Quotes.

Variable checksum_upper : string -> nat -> bool.
Variable n : Node.

Definition v2_quote (body : QuoteV2Body.t) : M (list string) :=
  try_except
    (let* amount_in := lift (int (QuoteV2Body.amount_in body)) in
     let* path := lift (comprehension (to_checksum_address checksum_upper)
                          (QuoteV2Body.path body)) in
     let* amounts := lift (getAmountsOut n amount_in path) in
     ret (map str amounts))
    (fun e => raise (HTTPFailure 400 "v2 quote failed: " e)).

Definition v3_quote (body : QuoteV3Body.t) : M string :=
  try_except
    (let* token_in := lift (to_checksum_address checksum_upper (QuoteV3Body.token_in body)) in
     let* token_out := lift (to_checksum_address checksum_upper (QuoteV3Body.token_out body)) in
     let* amount_in := lift (int (QuoteV3Body.amount_in body)) in
     let* out_amt := lift (quoteExactInputSingle n token_in token_out
                             (QuoteV3Body.fee body) amount_in
                             (QuoteV3Body.sqrt_price_limit_x96 body)) in
     ret (str out_amt))
    (fun e => raise (HTTPFailure 400 "v3 quote failed: " e)).

Definition v3_quote_multi (body : QuoteV3MultiBody.t) : M string :=
  try_except
    (let* path := lift (encode_v3_path checksum_upper
                          (QuoteV3MultiBody.tokens body) (QuoteV3MultiBody.fees body)) in
     let* amount_in := lift (int (QuoteV3MultiBody.amount_in body)) in
     let* out_amt := lift (quoteExactInput n path amount_in) in
     ret (str out_amt))
    (fun e => raise (HTTPFailure 400 "v3 multihop quote failed: " e)).

End Quotes.

(** The attributes [fetch_and_log_receipt] reads from a receipt. *)
Record Receipt : Type := {
  status : Z;
  gasUsed : Z;
  blockNumber : Z;
  effectiveGasPrice : Z
}.

(** [get_transaction_receipt] is what the node answers to
    [w3.eth.get_transaction_receipt]; the dictionary handed to [log_swap]
    is the one returned. *)
Definition fetch_and_log_receipt (cfg : Config) (n : Node) (now : Z)
    (get_transaction_receipt : string -> result Receipt) (tx_hash : string) : M Receipt :=
  try_except
    (let* rc := lift (get_transaction_receipt tx_hash) in
     let* _ := log_swap cfg n now tx_hash
                 [("status", VInt (status rc));
                  ("gasUsed", VInt (gasUsed rc));
                  ("blockNumber", VInt (blockNumber rc));
                  ("effectiveGasPrice", VInt (effectiveGasPrice rc))]%string in
     ret rc)
    (fun e => raise (HTTPFailure 400 "receipt fetch failed: " e)).

End Endpoints.

(* ===================================================================== *)
(** * Vocabulary of the statements *)
(* ===================================================================== *)

Import Py Web3 Backend.
Import Endpoints.

(** The five fields [with_fees_and_nonce] may fill. *)
Definition fee_nonce_fields : list string :=
  ["chainId"; "nonce"; "type"; "maxFeePerGas"; "maxPriorityFeePerGas"]%string.

(** What [with_fees_and_nonce] stores under a field that was absent. *)
Definition filled_value (cfg : Config) (max_fee tip count : Z) (k : string) : pyval :=
  if decide (k = "chainId"%string) then VInt (CHAIN_ID cfg)
  else if decide (k = "nonce"%string) then VInt count
  else if decide (k = "type"%string) then VInt 2
  else if decide (k = "maxFeePerGas"%string) then VInt max_fee
  else VInt tip.



(** The nonce a build puts into a transaction. *)
Definition built_nonce (cfg : Config) (n : Node) (tx : dict) : option pyval :=
  fst (with_fees_and_nonce cfg n tx) !! "nonce".

(** What the node reports as the signer's transaction count. *)
Definition node_count (cfg : Config) (n : Node) : option Z :=
  match acct cfg with
  | Some address =>
      match get_transaction_count n address with
      | Ok count => Some count
      | Raise _ => None
      end
  | None => None
  end.

(** Allocation from a process-wide counter, as the specification words it:
    build number [i] (from 0) carries the count seen at the first build
    plus [i]. *)
Definition counter_allocation (cfg : Config) (builds : list (Node * dict)) : Prop :=
  forall seed,
    (head builds ≫= fun b => node_count cfg (fst b)) = Some seed ->
    forall i b, builds !! i = Some b ->
      built_nonce cfg (fst b) (snd b) = Some (VInt (seed + Z.of_nat i)).

Definition gas_warning (e : exn) : event :=
  LogWarning "Gas estimation failed, sending without gas: %s" e.

(** The event list only grows under [m]. *)
Definition grows {A} (m : M A) : Prop :=
  forall s, exists l, events (fst (m s)) = events s ++ l.

(** The submissions among the events: endpoint and raw transaction. *)
Definition submissions (l : list event) : list (endpoint * list byte) :=
  omap (fun e => match e with SendRaw t raw => Some (t, raw) | _ => None end) l.

(** The endpoint [send_signed] submits to. *)
Definition send_target (cfg : Config) (n : Node) : endpoint :=
  match truthy_str (PRIVATE_RPC_URL cfg) with
  | Some url =>
      match new_provider n url with
      | Ok _ => PrivateRelay url
      | Raise _ => Primary
      end
  | None => Primary
  end.

Definition rmap {A B} (f : A -> B) (r : result A) : result B :=
  match r with Ok a => Ok (f a) | Raise e => Raise e end.




(** ** Fee estimation *)



(** ** Admission control *)



(** The outcomes of [rate_limit_dep] on a sequence of requests, each with
    the clock reading at its arrival. *)
Fixpoint run_requests (cfg : Config) (n : Node) (trace : list (Request * Z)) (s : State)
  : list (result unit) :=
  match trace with
  | [] => []
  | (request, now) :: rest =>
      let '(s', r) := rate_limit_dep cfg n now request s in
      r :: run_requests cfg n rest s'
  end.



(** ** Path encoding *)

(** The 20 bytes an address text stands for. *)
Definition raw_address (t : string) : list byte :=
  default [] (unhexlify (remove_0x_prefix t)).

(** A fee tier that fits the three bytes of the path format. *)
Definition uint24 (n : Z) : bool := (0 <=? n) && (n <? 2 ^ 24).

Definition byte_of_Z (z : Z) : byte := default x00 (Byte.of_N (Z.to_N z)).

(** Three bytes, most significant first. *)
Definition be3 (n : Z) : list byte :=
  [byte_of_Z (n / 65536); byte_of_Z ((n / 256) mod 256); byte_of_Z (n mod 256)].

Definition be3_value (b2 b1 b0 : byte) : Z :=
  65536 * Z.of_N (Byte.to_N b2) + 256 * Z.of_N (Byte.to_N b1) + Z.of_N (Byte.to_N b0).

(** The hops before the final token: each token's bytes, then its tier. *)
Fixpoint hops (tokens : list string) (fees : list Z) : list byte :=
  match tokens, fees with
  | t :: ts, f :: fs => raw_address t ++ be3 f ++ hops ts fs
  | _, _ => []
  end.

(** The byte layout in the words of the specification: every address
    followed by its tier, closed by the final address. *)
Fixpoint spec_path (addrs : list (list byte)) (tiers : list (list byte)) : list byte :=
  match addrs, tiers with
  | a :: addrs', t :: tiers' => a ++ t ++ spec_path addrs' tiers'
  | a :: _, [] => a
  | [], _ => []
  end.

(** Modelled from the spec: the test-only decoder of section 8, which is
    not in the repository.  It reads 20 bytes of address, then, while
    bytes remain, 3 bytes of tier and the next address. *)
Fixpoint decode_path (fuel : nat) (bs : list byte) : option (list (list byte) * list Z) :=
  match fuel with
  | O => None
  | S fuel' =>
      if (length bs <? 20)%nat then None
      else
        match drop 20 bs with
        | [] => Some ([take 20 bs], [])
        | b2 :: b1 :: b0 :: rest =>
            match decode_path fuel' rest with
            | Some (addrs, tiers) => Some (take 20 bs :: addrs, be3_value b2 b1 b0 :: tiers)
            | None => None
            end
        | _ => None
        end
  end.

(** ** Sample configuration and node *)

Definition signer : string := "0x00000000000000000000000000000000000000aa".
Definition token_a : string := "0xC02aaA39b223FE8D0A0e5C4F27eAD9083C756Cc2".
Definition token_b : string := "0x6B175474E89094C44Da98b954EedeAC495271d0F".

(** Every hash digit below 8: the checksum form is the lower-case form. *)
Definition no_upper : string -> nat -> bool := fun _ _ => false.

Definition sample_cfg : Config := {|
  CHAIN_ID := 1;
  acct := Some signer;
  DEFAULT_RECIPIENT := None;
  RATE_LIMIT := 3;
  RATE_WINDOW := 60;
  rate_table := false;
  log_table := false;
  PRIVATE_RPC_URL := None
|}.

(** A node that answers every call: transaction count 7, quotes of
    2,000,000, transactions built with the two fields below. *)
Definition sample_node : Node := {|
  fee_history := Ok {| baseFeePerGas := [90; 100]; reward := Some [[10]; [20]] |};
  gas_price := Ok 50;
  get_transaction_count := fun _ => Ok 7;
  estimate_gas := fun _ => Ok 100000;
  getAmountsOut := fun amount_in _ => Ok [amount_in; 2000000];
  quoteExactInputSingle := fun _ _ _ _ _ => Ok 2000000;
  quoteExactInput := fun _ _ => Ok 2000000;
  build_transaction := fun _ address =>
    Ok ({[ "from"%string := VStr address; "value"%string := VInt 0 ]} : dict);
  sign_transaction := fun _ => Ok [x02; xf8];
  new_provider := fun _ => Ok tt;
  send_raw_transaction := fun _ _ => Ok [xab; xcd];
  update_item_fault := None;
  put_item_fault := None
|}.


(** A private relay is configured. *)
Definition relay_cfg : Config := {|
  CHAIN_ID := 1;
  acct := Some signer;
  DEFAULT_RECIPIENT := None;
  RATE_LIMIT := 3;
  RATE_WINDOW := 60;
  rate_table := false;
  log_table := false;
  PRIVATE_RPC_URL := Some "https://relay.example"%string
|}.




Definition sample_now : Z := 1700000000.

(** The state a sequence of requests leaves behind. *)
Fixpoint state_after (cfg : Config) (n : Node) (trace : list (Request * Z)) (s : State)
  : State :=
  match trace with
  | [] => s
  | (request, now) :: rest => state_after cfg n rest (fst (rate_limit_dep cfg n now request s))
  end.

Definition caller : Request :=
  {| x_api_key := Some "key-1"%string; client_host := Some "10.0.0.7"%string |}.


(** The sample node with another fee history and gas price. *)
Definition node_with_fees (history : result FeeHistory) (price : result Z) : Node := {|
  fee_history := history;
  gas_price := price;
  get_transaction_count := get_transaction_count sample_node;
  estimate_gas := estimate_gas sample_node;
  getAmountsOut := getAmountsOut sample_node;
  quoteExactInputSingle := quoteExactInputSingle sample_node;
  quoteExactInput := quoteExactInput sample_node;
  build_transaction := build_transaction sample_node;
  sign_transaction := sign_transaction sample_node;
  new_provider := new_provider sample_node;
  send_raw_transaction := send_raw_transaction sample_node;
  update_item_fault := None;
  put_item_fault := None
|}.

(** Two rewards with an odd sum. *)
Definition uneven_node : Node :=
  node_with_fees (Ok {| baseFeePerGas := [100]; reward := Some [[1]; [2]] |}) (Ok 50).


(** A node that answers neither the fee history nor the gas price. *)
Definition silent_node : Node :=
  node_with_fees (Raise (NodeError "timeout")) (Raise (NodeError "timeout")).

(** A fee history without base fees. *)
Definition empty_history_node : Node :=
  node_with_fees (Ok {| baseFeePerGas := []; reward := None |}) (Ok 50).

Definition initial_state : State :=
  {| events := []; _rate_cache := ∅; rate_items := ∅ |}.

(** ** More vocabulary: limiter, fees, handlers *)

(** Outcome of the request that brings a count to [i]. *)
Definition outcome_at (cfg : Config) (i : Z) : result unit :=
  if RATE_LIMIT cfg <? i
  then Raise (HTTPException 429 (rate_limit_detail cfg i))
  else Ok tt.

(** Exceptions that are [HTTPException]s in the source. *)
Definition is_http (e : exn) : bool :=
  match e with
  | HTTPException _ _ | HTTPFailure _ _ _ => true
  | _ => false
  end.

Definition table_warning (e : exn) : event := LogWarning "Rate table error: %s" e.

(** A fee history whose base fees and rewards are not negative. *)
Definition nonneg_history (hist : FeeHistory) : Prop :=
  Forall (fun b => 0 <= b) (baseFeePerGas hist) /\
  Forall (Forall (fun r => 0 <= r)) (default [] (reward hist)).

(** The fields [fill_and_send] may add before signing. *)
Definition filled_fields : list string := "gas"%string :: fee_nonce_fields.

(** What [log_swap] records: the log line, then the table item or the
    warning that it could not be put. *)
Definition log_records (cfg : Config) (n : Node) (now : Z) (h : string)
    (meta : list (string * pyval)) : list event :=
  LogSwap h meta ::
  (if log_table cfg then
     match put_item_fault n with
     | None => [PutLog h now meta]
     | Some e => [LogWarning "DDB put_item failed: %s" e]
     end
   else []).

(** [m] hands nothing to an endpoint. *)
Definition silent {A} (m : M A) : Prop :=
  forall s, submissions (events (fst (m s))) = submissions (events s).

(** [m] hands at most one transaction to an endpoint, and exactly one
    when it returns. *)
Definition submits_once {A} (m : M A) : Prop :=
  forall s, exists sent,
    submissions (events (fst (m s))) = submissions (events s) ++ sent /\
    (length sent <= 1)%nat /\
    (is_ok (snd (m s)) = true -> length sent = 1%nat).

(** [m] leaves the state as it was. *)
Definition stateless {A} (m : M A) : Prop := forall s, fst (m s) = s.

(** An exception of [m] that is not an [HTTPException] leaves the state
    as it was. *)
Definition fails_early {A} (m : M A) : Prop :=
  forall s e, snd (m s) = Raise e -> is_http e = false -> fst (m s) = s.

(** Every exception of [m] is an [HTTPException]. *)
Definition fails_http {A} (m : M A) : Prop :=
  forall s e, snd (m s) = Raise e -> is_http e = true.




(** Two spellings of one address: the same digits after the optional
    prefix, letter case apart. *)
Definition same_address (t t' : string) : Prop :=
  lower (remove_0x_prefix t) = lower (remove_0x_prefix t').

(** The dictionary [fetch_and_log_receipt] makes of a receipt. *)
Definition receipt_meta (rc : Receipt) : list (string * pyval) :=
  [("status", VInt (status rc));
   ("gasUsed", VInt (gasUsed rc));
   ("blockNumber", VInt (blockNumber rc));
   ("effectiveGasPrice", VInt (effectiveGasPrice rc))]%string.

(** The configuration with another answer to [if log_table:]. *)
Definition with_log_table (table : bool) (cfg : Config) : Config := {|
  CHAIN_ID := CHAIN_ID cfg;
  acct := acct cfg;
  DEFAULT_RECIPIENT := DEFAULT_RECIPIENT cfg;
  RATE_LIMIT := RATE_LIMIT cfg;
  RATE_WINDOW := RATE_WINDOW cfg;
  rate_table := rate_table cfg;
  log_table := table;
  PRIVATE_RPC_URL := PRIVATE_RPC_URL cfg
|}.

(** The node with another fate for [put_item]. *)
Definition with_put_item_fault (fault : option exn) (n : Node) : Node := {|
  fee_history := fee_history n;
  gas_price := gas_price n;
  get_transaction_count := get_transaction_count n;
  estimate_gas := estimate_gas n;
  getAmountsOut := getAmountsOut n;
  quoteExactInputSingle := quoteExactInputSingle n;
  quoteExactInput := quoteExactInput n;
  build_transaction := build_transaction n;
  sign_transaction := sign_transaction n;
  new_provider := new_provider n;
  send_raw_transaction := send_raw_transaction n;
  update_item_fault := update_item_fault n;
  put_item_fault := fault
|}.

(** What [log_swap] writes for the table: the item, or the warning that
    the item could not be put. *)
Definition table_record (e : event) : bool :=
  match e with
  | PutLog _ _ _ => true
  | LogWarning template _ => bool_decide (template = "DDB put_item failed: %s"%string)
  | _ => false
  end.

Definition outside_table (l : list event) : list event :=
  omap (fun e => if table_record e then None else Some e) l.

(** Two computations that, started from states with the same events
    outside the table, end with the same result and again the same
    events outside the table. *)
Definition agree {A} (m1 m2 : M A) : Prop :=
  forall s1 s2,
    outside_table (events s1) = outside_table (events s2) ->
    snd (m1 s1) = snd (m2 s2) /\
    outside_table (events (fst (m1 s1))) = outside_table (events (fst (m2 s2))).

(** ** More sample data *)

(** The caller's key, sent from another host. *)
Definition other_caller : Request :=
  {| x_api_key := Some "key-1"%string; client_host := Some "10.0.0.8"%string |}.

(** Four requests within the first minute. *)
Definition burst : list (Request * Z) :=
  [(caller, 0); (caller, 10); (caller, 20); (caller, 30)].

(** Both tables are configured. *)
Definition shared_cfg : Config := {|
  CHAIN_ID := 1;
  acct := Some signer;
  DEFAULT_RECIPIENT := None;
  RATE_LIMIT := 3;
  RATE_WINDOW := 60;
  rate_table := true;
  log_table := true;
  PRIVATE_RPC_URL := None
|}.

(** The sample node while the rate table rejects [update_item]. *)
Definition table_down_node : Node := {|
  fee_history := fee_history sample_node;
  gas_price := gas_price sample_node;
  get_transaction_count := get_transaction_count sample_node;
  estimate_gas := estimate_gas sample_node;
  getAmountsOut := getAmountsOut sample_node;
  quoteExactInputSingle := quoteExactInputSingle sample_node;
  quoteExactInput := quoteExactInput sample_node;
  build_transaction := build_transaction sample_node;
  sign_transaction := sign_transaction sample_node;
  new_provider := new_provider sample_node;
  send_raw_transaction := send_raw_transaction sample_node;
  update_item_fault := Some (NodeError "throttled");
  put_item_fault := None
|}.

(** The table already counts three requests of the caller in window 0. *)
Definition full_table_state : State :=
  {| events := []; _rate_cache := ∅;
     rate_items := {[ "rate::key-1"%string := (0, 3) ]} |}.

(** The sample fee history on a chain whose gas price is 2 gwei. *)
Definition priced_node : Node :=
  node_with_fees (Ok {| baseFeePerGas := [90; 100]; reward := Some [[10]; [20]] |})
    (Ok 2000000000).


(** A swap whose recipient is not an address. *)
Definition bad_recipient_v2_body : SwapV2Body.t := {|
  SwapV2Body.amount_in := "1000000";
  SwapV2Body.amount_out_min := None;
  SwapV2Body.path := [token_a; token_b];
  SwapV2Body.to := Some "nobody"%string;
  SwapV2Body.deadline := None;
  SwapV2Body.slippage_bps := 50;
  SwapV2Body.support_fee_on_transfer := false
|}.

(** A quote request whose amount is not a number. *)
Definition bad_quote : QuoteV2Body.t :=
  {| QuoteV2Body.amount_in := "abc"; QuoteV2Body.path := [token_a; token_b] |}.

(** A node that knows no receipt. *)
Definition no_receipt : string -> result Receipt :=
  fun _ => Raise (NodeError "not found").

(** The two sample tokens spelled without prefix in lower case, and with
    an upper-case prefix in upper case. *)
Definition token_a_bare : string := "c02aaa39b223fe8d0a0e5c4f27ead9083c756cc2".
Definition token_b_shouting : string := "0X6B175474E89094C44DA98B954EEDEAC495271D0F".

(* ===================================================================== *)
(** * Properties *)
(* ===================================================================== *)


(** ** The definitions on sample inputs *)

Example int_examples :
  int " -12_000 " = Ok (-12000) /\ int "+5" = Ok 5 /\
  int "1__0" = Raise ValueError /\ int "" = Raise ValueError /\
  str (-45) = "-45"%string /\ str 0 = "0"%string.
Proof. repeat split; reflexivity. Qed.

Example truediv_examples :
  rmap int_of_float (truediv 7 2) = Ok 3 /\
  rmap int_of_float (truediv (-7) 2) = Ok (-3) /\
  rmap int_of_float (truediv 7500000000 5) = Ok 1500000000 /\
  truediv 1 3 = Ok {| mant := 6004799503160661; expo := -54 |} /\
  rmap int_of_float (truediv 9007199254740993 1) = Ok 9007199254740992 /\
  truediv (2 ^ 1024) 1 = Raise OverflowError /\
  truediv 1 0 = Raise ZeroDivisionError.
Proof. repeat split; vm_compute; reflexivity. Qed.

Example to_checksum_address_examples :
  to_checksum_address no_upper token_a
  = Ok "0xc02aaa39b223fe8d0a0e5c4f27ead9083c756cc2"%string /\
  to_checksum_address (fun _ i => Nat.even i) "C02AAA39B223FE8D0A0E5C4F27EAD9083C756CC2"
  = Ok "0xC02aAa39B223Fe8d0a0e5c4f27EaD9083c756cC2"%string /\
  to_checksum_address no_upper "0xC02aaA39b223FE8D0A0e5C4F27eAD9083C756Cc"
  = Raise ValueError /\
  to_checksum_address no_upper "" = Raise ValueError /\
  to_bytes_hexstr "0xabc" = Ok [x0a; xbc] /\
  int_to_bytes3 3000 = Ok [x00; x0b; xb8] /\
  int_to_bytes3 16777216 = Raise OverflowError /\
  int_to_bytes3 (-1) = Raise OverflowError.
Proof. repeat split; reflexivity. Qed.

Example encode_v3_path_example :
  encode_v3_path no_upper [token_a; token_b] [3000]
  = Ok [xc0; x2a; xaa; x39; xb2; x23; xfe; x8d; x0a; x0e; x5c; x4f; x27; xea; xd9; x08; x3c; x75; x6c; xc2; x00; x0b; xb8; x6b; x17; x54; x74; xe8; x90; x94; xc4; x4d; xa9; x8b; x95; x4e; xed; xea; xc4; x95; x27; x1d; x0f].
Proof. reflexivity. Qed.

Example suggest_fees_examples :
  suggest_fees sample_node = Ok (130, 15) /\
  suggest_fees uneven_node = Ok (102, 1) /\
  suggest_fees empty_history_node = Ok (50, one_gwei).
Proof. repeat split; vm_compute; reflexivity. Qed.

Example with_fees_and_nonce_example :
  with_fees_and_nonce sample_cfg sample_node ∅
  = ({[ "chainId"%string := VInt 1; "nonce"%string := VInt 7; "type"%string := VInt 2;
        "maxFeePerGas"%string := VInt 130; "maxPriorityFeePerGas"%string := VInt 15 ]},
     Ok tt).
Proof. vm_compute. reflexivity. Qed.

(** ** [int(str(n))] *)












(** ** Dictionaries *)

Lemma setdefault_present (k : string) (v w : pyval) (d : dict) :
  d !! k = Some w -> setdefault k v d = d.
Proof. intros H. unfold setdefault. now rewrite H. Qed.

Lemma setdefault_absent (k : string) (v : pyval) (d : dict) :
  d !! k = None -> setdefault k v d = <[k := v]> d.
Proof. intros H. unfold setdefault. now rewrite H. Qed.

Lemma lookup_setdefault_eq (k : string) (v : pyval) (d : dict) :
  setdefault k v d !! k = Some (default v (d !! k)).
Proof.
  unfold setdefault. destruct (d !! k) eqn:E; simpl.
  - exact E.
  - apply lookup_insert_eq.
Qed.

Lemma lookup_setdefault_ne (k j : string) (v : pyval) (d : dict) :
  k <> j -> setdefault k v d !! j = d !! j.
Proof.
  intros Hne. unfold setdefault. destruct (d !! k); [reflexivity|].
  now apply lookup_insert_ne.
Qed.

Lemma lookup_setdefault_keep (k j : string) (v w : pyval) (d : dict) :
  d !! j = Some w -> setdefault k v d !! j = Some w.
Proof.
  intros H. destruct (decide (k = j)) as [->|Hne].
  - rewrite lookup_setdefault_eq, H. reflexivity.
  - rewrite lookup_setdefault_ne; assumption.
Qed.

Lemma with_fees_and_nonce_keeps cfg n (tx : dict) k v :
  tx !! k = Some v -> fst (with_fees_and_nonce cfg n tx) !! k = Some v.
Proof.
  intros H. unfold with_fees_and_nonce.
  destruct (suggest_fees n) as [[max_fee tip]|e]; simpl; [|exact H].
  destruct (acct cfg) as [address|]; simpl;
    [|now apply lookup_setdefault_keep].
  destruct (get_transaction_count n address) as [count|e]; simpl;
    repeat apply lookup_setdefault_keep; exact H.
Qed.

Lemma with_fees_and_nonce_others cfg n (tx : dict) k :
  k ∉ fee_nonce_fields -> fst (with_fees_and_nonce cfg n tx) !! k = tx !! k.
Proof.
  intros Hk. unfold fee_nonce_fields in Hk.
  repeat (apply not_elem_of_cons in Hk as [? Hk]).
  unfold with_fees_and_nonce.
  destruct (suggest_fees n) as [[max_fee tip]|e]; simpl; [|reflexivity].
  destruct (acct cfg) as [address|]; simpl;
    [|rewrite lookup_setdefault_ne; congruence].
  destruct (get_transaction_count n address) as [count|e]; simpl;
    repeat (rewrite lookup_setdefault_ne; [|congruence]); reflexivity.
Qed.

Lemma with_fees_and_nonce_fills cfg n (tx : dict) :
  snd (with_fees_and_nonce cfg n tx) = Ok tt ->
  exists max_fee tip address count,
    suggest_fees n = Ok (max_fee, tip) /\
    acct cfg = Some address /\
    get_transaction_count n address = Ok count /\
    forall k, k ∈ fee_nonce_fields ->
      fst (with_fees_and_nonce cfg n tx) !! k
      = Some (default (filled_value cfg max_fee tip count k) (tx !! k)).
Proof.
  unfold with_fees_and_nonce.
  destruct (suggest_fees n) as [[max_fee tip]|e] eqn:Efees; simpl; [|discriminate].
  destruct (acct cfg) as [address|] eqn:Eacct; simpl; [|discriminate].
  destruct (get_transaction_count n address) as [count|e] eqn:Ecount; simpl; [|discriminate].
  intros _. exists max_fee, tip, address, count.
  do 3 (split; [reflexivity || assumption|]).
  intros k Hk. unfold fee_nonce_fields in Hk.
  repeat (apply elem_of_cons in Hk as [->|Hk]);
    [ .. | now apply elem_of_nil in Hk ];
    unfold filled_value; simpl;
    repeat (rewrite lookup_setdefault_ne by discriminate);
    rewrite lookup_setdefault_eq;
    repeat (rewrite lookup_setdefault_ne by discriminate);
    reflexivity.
Qed.

(** ** Filling fees and nonce *)

(** C10. [with_fees_and_nonce] keeps every field the dictionary already
    has, touches no field outside [chainId], [nonce], [type],
    [maxFeePerGas] and [maxPriorityFeePerGas], and, when it returns, has
    given each of these five that was absent its value (chain id, the
    node's transaction count, 2, the suggested maximum fee and tip). *)
Theorem with_fees_and_nonce_frame cfg n (tx : dict) :
  (forall k v, tx !! k = Some v ->
     fst (with_fees_and_nonce cfg n tx) !! k = Some v) /\
  (forall k, k ∉ fee_nonce_fields ->
     fst (with_fees_and_nonce cfg n tx) !! k = tx !! k) /\
  (snd (with_fees_and_nonce cfg n tx) = Ok tt ->
   exists max_fee tip address count,
     suggest_fees n = Ok (max_fee, tip) /\
     acct cfg = Some address /\
     get_transaction_count n address = Ok count /\
     forall k, k ∈ fee_nonce_fields ->
       fst (with_fees_and_nonce cfg n tx) !! k
       = Some (default (filled_value cfg max_fee tip count k) (tx !! k))).
Proof.
  split; [|split].
  - intros k v. apply with_fees_and_nonce_keeps.
  - intros k. apply with_fees_and_nonce_others.
  - apply with_fees_and_nonce_fills.
Qed.

Lemma with_fees_and_nonce_frame_witness :
  let tx : dict := {[ "nonce"%string := VInt 99; "to"%string := VStr token_a ]} in
  fst (with_fees_and_nonce sample_cfg sample_node tx) !! "nonce"%string = Some (VInt 99) /\
  fst (with_fees_and_nonce sample_cfg sample_node tx) !! "to"%string = Some (VStr token_a) /\
  fst (with_fees_and_nonce sample_cfg sample_node tx) !! "chainId"%string = Some (VInt 1).
Proof.
  intros tx.
  destruct (with_fees_and_nonce_frame sample_cfg sample_node tx) as (Hkeep & Hother & Hfill).
  split; [|split].
  - apply Hkeep. reflexivity.
  - rewrite Hother; [reflexivity|].
    unfold fee_nonce_fields. intros H.
    repeat (apply elem_of_cons in H as [H|H]; [discriminate H|]).
    now apply elem_of_nil in H.
  - destruct Hfill as (max_fee & tip & address & count & _ & _ & _ & Hk);
      [reflexivity|].
    rewrite (Hk "chainId"%string); [reflexivity|].
    unfold fee_nonce_fields. apply elem_of_cons. now left.
Defined.

(** ** Nonces *)

Lemma built_nonce_absent cfg n (tx : dict) :
  snd (with_fees_and_nonce cfg n tx) = Ok tt ->
  tx !! "nonce"%string = None ->
  exists count, node_count cfg n = Some count /\ built_nonce cfg n tx = Some (VInt count).
Proof.
  intros Hok Hnone.
  destruct (with_fees_and_nonce_fills cfg n tx Hok)
    as (max_fee & tip & address & count & _ & Hacct & Hcount & Hk).
  exists count. split.
  - unfold node_count. now rewrite Hacct, Hcount.
  - unfold built_nonce. rewrite (Hk "nonce"%string).
    + now rewrite Hnone.
    + unfold fee_nonce_fields. apply elem_of_cons. right. apply elem_of_cons. now left.
Qed.

(** C1 (as the code has it). No counter is kept: each build of a
    transaction without a nonce stores the transaction count the node
    reports for the signer at that build, so the nonces of a run of builds
    are the node's answers, one for one. *)
Theorem nonces_are_node_counts cfg (builds : list (Node * dict)) :
  Forall (fun b => snd (with_fees_and_nonce cfg (fst b) (snd b)) = Ok tt /\
                   snd b !! "nonce"%string = None) builds ->
  map (fun b => built_nonce cfg (fst b) (snd b)) builds
  = map (fun b => VInt <$> node_count cfg (fst b)) builds /\
  Forall (fun b => is_Some (node_count cfg (fst b))) builds.
Proof.
  induction 1 as [|b builds [Hok Hnone] _ [IHmap IHsome]]; simpl.
  - split; constructor.
  - destruct (built_nonce_absent cfg (fst b) (snd b) Hok Hnone) as (count & Hc & Hb).
    split.
    + rewrite Hb, Hc, IHmap. reflexivity.
    + constructor; [rewrite Hc; eauto | exact IHsome].
Qed.

Lemma nonces_are_node_counts_witness :
  map (fun b => built_nonce sample_cfg (fst b) (snd b)) [(sample_node, (∅ : dict))]
  = [Some (VInt 7)].
Proof.
  apply (nonces_are_node_counts sample_cfg [(sample_node, (∅ : dict))]).
  repeat constructor.
Defined.

(** C1, refuted as worded: two builds made while the node still reports
    a transaction count of 7 both carry nonce 7; the second one is not
    7 + 1. *)
Lemma nonce_repeats_between_builds :
  map (fun b => built_nonce sample_cfg (fst b) (snd b))
      [(sample_node, (∅ : dict)); (sample_node, (∅ : dict))]
  = [Some (VInt 7); Some (VInt 7)]
  /\ ~ counter_allocation sample_cfg [(sample_node, (∅ : dict)); (sample_node, (∅ : dict))].
Proof.
  split; [reflexivity|].
  intros H. specialize (H 7 eq_refl 1%nat (sample_node, ∅) eq_refl).
  discriminate H.
Qed.

(** ** Gas estimation *)

Lemma estimate_and_fill_gas_failed n (tx : dict) s e :
  estimate_gas n tx = Raise e ->
  estimate_and_fill_gas n tx s = (set_events (fun l => l ++ [gas_warning e]) s, Ok tx).
Proof.
  intros H. unfold estimate_and_fill_gas, try_except, bind, lift, emit, ret.
  rewrite H. reflexivity.
Qed.

Lemma estimate_and_fill_gas_estimated n (tx : dict) s gas :
  estimate_gas n tx = Ok gas ->
  estimate_and_fill_gas n tx s = (s, Ok (setdefault "gas" (VInt (gas * 12 / 10)) tx)).
Proof.
  intros H. unfold estimate_and_fill_gas, try_except, bind, lift, ret.
  rewrite H. reflexivity.
Qed.



(** ** Events of the handlers *)

Lemma grows_ret {A} (a : A) : grows (ret a).
Proof. intros s. exists []. simpl. now rewrite app_nil_r. Qed.

Lemma grows_raise {A} e : grows (@raise A e).
Proof. intros s. exists []. simpl. now rewrite app_nil_r. Qed.

Lemma grows_lift {A} (r : result A) : grows (lift r).
Proof. intros s. exists []. simpl. now rewrite app_nil_r. Qed.

Lemma grows_emit e : grows (emit e).
Proof. intros s. exists [e]. reflexivity. Qed.

Lemma grows_bind {A B} (m : M A) (k : A -> M B) :
  grows m -> (forall a, grows (k a)) -> grows (bind m k).
Proof.
  intros Hm Hk s. unfold bind. destruct (Hm s) as [l Hl].
  destruct (m s) as [s' [a|e]]; simpl in *.
  - destruct (Hk a s') as [l' Hl']. exists (l ++ l').
    now rewrite Hl', Hl, app_assoc.
  - now exists l.
Qed.

Lemma grows_try_except {A} (m : M A) (h : exn -> M A) :
  grows m -> (forall e, grows (h e)) -> grows (try_except m h).
Proof.
  intros Hm Hh s. unfold try_except. destruct (Hm s) as [l Hl].
  destruct (m s) as [s' [a|e]]; simpl in *.
  - now exists l.
  - destruct (Hh e s') as [l' Hl']. exists (l ++ l').
    now rewrite Hl', Hl, app_assoc.
Qed.

Create HintDb grows.
#[local] Hint Resolve grows_ret grows_raise grows_lift grows_emit : grows.

Ltac grows :=
  repeat first
    [ progress intros
    | apply grows_bind
    | apply grows_try_except
    | solve [auto with grows]
    | match goal with |- grows (match ?x with _ => _ end) => destruct x end
    | match goal with |- grows (if ?x then _ else _) => destruct x end ].

Lemma grows_estimate_and_fill_gas n tx : grows (estimate_and_fill_gas n tx).
Proof. unfold estimate_and_fill_gas. grows. Qed.

Lemma grows_send_signed cfg n tx : grows (send_signed cfg n tx).
Proof. unfold send_signed. grows. Qed.

Lemma grows_log_swap cfg n now h meta : grows (log_swap cfg n now h meta).
Proof. unfold log_swap. grows. Qed.

#[local] Hint Resolve grows_estimate_and_fill_gas grows_send_signed grows_log_swap : grows.

Lemma grows_fill_and_send cfg n tx : grows (fill_and_send cfg n tx).
Proof. unfold fill_and_send. grows. Qed.

#[local] Hint Resolve grows_fill_and_send : grows.






Section HandlerFacts.

Variable up : string -> nat -> bool.
Variables (cfg : Config) (n : Node) (now : Z).






End HandlerFacts.

(** ** Slippage guard *)




(** ** Intent validation *)




(** ** Submission *)

Lemma submissions_app l1 l2 : submissions (l1 ++ l2) = submissions l1 ++ submissions l2.
Proof. unfold submissions. apply omap_app. Qed.

(** The provider is chosen first; choosing it may log a warning but never
    raises and never submits. *)
Lemma send_signed_unfold cfg n (tx : dict) s :
  exists s0,
    submissions (events s0) = submissions (events s) /\
    send_signed cfg n tx s
    = match sign_transaction n tx with
      | Ok raw =>
          (set_events (fun l => l ++ [SendRaw (send_target cfg n) raw]) s0,
           rmap hexbytes_hex (send_raw_transaction n (send_target cfg n) raw))
      | Raise e => (s0, Raise e)
      end.
Proof.
  unfold send_signed, send_target.
  destruct (truthy_str (PRIVATE_RPC_URL cfg)) as [url|].
  - destruct (new_provider n url) as [[]|e].
    + exists s. split; [reflexivity|].
      unfold bind, try_except, lift, ret, emit.
      destruct (sign_transaction n tx) as [raw|e']; [|reflexivity].
      destruct (send_raw_transaction n (PrivateRelay url) raw); reflexivity.
    + exists (set_events (fun l => l ++ [LogWarning "Private RPC init failed: %s" e]) s).
      split.
      * cbn [events set_events]. rewrite submissions_app. cbn. apply app_nil_r.
      * unfold bind, try_except, lift, ret, emit.
        destruct (sign_transaction n tx) as [raw|e']; [|reflexivity].
        destruct (send_raw_transaction n Primary raw); reflexivity.
  - exists s. split; [reflexivity|].
    unfold bind, lift, ret, emit.
    destruct (sign_transaction n tx) as [raw|e']; [|reflexivity].
    destruct (send_raw_transaction n Primary raw); reflexivity.
Qed.




(** ** Addresses *)

Ltac each_char c := destruct c as [[] [] [] [] [] [] [] []].

Lemma hex_digit_value_lower c : hex_digit_value (lower_char c) = hex_digit_value c.
Proof. each_char c; reflexivity. Qed.

Lemma hex_digit_value_upper c : hex_digit_value (upper_char c) = hex_digit_value c.
Proof. each_char c; reflexivity. Qed.

Lemma lower_char_idem c : lower_char (lower_char c) = lower_char c.
Proof. each_char c; reflexivity. Qed.

Lemma lower_char_zero c : (lower_char c =? "0")%char = (c =? "0")%char.
Proof. each_char c; reflexivity. Qed.

Lemma lower_char_x c :
  ((lower_char c =? "x") || (lower_char c =? "X"))%char = ((c =? "x") || (c =? "X"))%char.
Proof. each_char c; reflexivity. Qed.

Lemma hex_digit_value_bound c x : hex_digit_value c = Some x -> (x < 16)%N.
Proof. each_char c; cbn; intros H; inversion H; reflexivity. Qed.

Lemma lower_idem s : lower (lower s) = lower s.
Proof. induction s as [|c r IH]; simpl; [reflexivity|]. now rewrite lower_char_idem, IH. Qed.

Lemma length_lower s : String.length (lower s) = String.length s.
Proof. induction s as [|c r IH]; simpl; congruence. Qed.

Lemma all_hex_lower s : all_hex (lower s) = all_hex s.
Proof.
  induction s as [|c r IH]; simpl; [reflexivity|].
  unfold is_hex_digit. now rewrite hex_digit_value_lower, IH.
Qed.

Lemma is_0x_prefixed_lower s : is_0x_prefixed (lower s) = is_0x_prefixed s.
Proof.
  destruct s as [|c1 [|c2 r]]; try reflexivity. simpl.
  now rewrite lower_char_zero, lower_char_x.
Qed.

Lemma remove_0x_prefix_lower s : remove_0x_prefix (lower s) = lower (remove_0x_prefix s).
Proof.
  unfold remove_0x_prefix. rewrite is_0x_prefixed_lower.
  destruct (is_0x_prefixed s); [|reflexivity].
  destruct s as [|c1 [|c2 r]]; reflexivity.
Qed.

Lemma remove_0x_prefix_0x s : remove_0x_prefix (String "0" (String "x" s)) = s.
Proof. reflexivity. Qed.

Lemma add_0x_prefix_lower s :
  add_0x_prefix (lower s) = String "0" (String "x" (lower (remove_0x_prefix s))).
Proof.
  unfold add_0x_prefix, remove_0x_prefix. rewrite is_0x_prefixed_lower.
  destruct (is_0x_prefixed s) eqn:E; [|reflexivity].
  destruct s as [|c1 [|c2 r]]; try discriminate E. simpl in *.
  apply andb_prop in E as [E1 E2].
  apply Ascii.eqb_eq in E1 as ->.
  apply orb_prop in E2 as [E2|E2]; apply Ascii.eqb_eq in E2 as ->; reflexivity.
Qed.

Lemma to_normalized_address_spec t :
  to_normalized_address t
  = if is_hex_address t
    then Ok (String "0" (String "x" (lower (remove_0x_prefix t))))
    else Raise ValueError.
Proof.
  unfold to_normalized_address.
  rewrite add_0x_prefix_lower.
  cbn [lower]. change (lower_char "0") with "0"%char. change (lower_char "x") with "x"%char.
  rewrite lower_idem.
  unfold is_hex_address at 1. rewrite remove_0x_prefix_0x, length_lower, all_hex_lower.
  fold (is_hex_address t).
  destruct (is_hex_address t) eqn:E.
  - unfold is_hex_address in E. apply andb_prop in E as [Elen Ehex].
    unfold is_hexstr. rewrite Ehex.
    destruct t; [discriminate Elen|]. cbn [is_empty negb andb].
    now rewrite andb_false_r.
  - now destruct (_ && _).
Qed.

Lemma length_checksum_case up a s : forall i,
  String.length (checksum_case up a i s) = String.length s.
Proof. induction s as [|c r IH]; intros i; simpl; [reflexivity|]. now rewrite IH. Qed.

(** Induction on strings two characters at a time. *)
Lemma string_pair_ind (P : string -> Prop) :
  P EmptyString ->
  (forall c, P (String c EmptyString)) ->
  (forall c1 c2 r, P r -> P (String c1 (String c2 r))) ->
  forall s, P s.
Proof.
  intros H0 H1 H2.
  assert (H : forall s, P s /\ forall c, P (String c s)).
  { induction s as [|c r [IH1 IH2]]; split; auto. }
  intros s. apply H.
Qed.

Lemma unhexlify_checksum_case up a s : forall i,
  unhexlify (checksum_case up a i (lower s)) = unhexlify s.
Proof.
  induction s as [|c|c1 c2 r IH] using string_pair_ind; intros i; try reflexivity.
  cbn [lower checksum_case unhexlify].
  rewrite IH.
  assert (H1 : forall b c, hex_digit_value (if b : bool then upper_char (lower_char c) else lower_char c)
                           = hex_digit_value c).
  { intros [] c; [rewrite hex_digit_value_upper|]; apply hex_digit_value_lower. }
  now rewrite !H1.
Qed.

Lemma byte_of_nibbles_some x y :
  (x < 16)%N -> (y < 16)%N -> exists b, byte_of_nibbles x y = Some b.
Proof.
  intros Hx Hy. unfold byte_of_nibbles.
  destruct (Byte.of_N (16 * x + y)) as [b|] eqn:E; [eauto|].
  apply Byte.of_N_None_iff in E. lia.
Qed.

Lemma unhexlify_all_hex s : forall k,
  String.length s = (2 * k)%nat -> all_hex s = true ->
  exists bs, unhexlify s = Some bs /\ length bs = k.
Proof.
  induction s as [|c|c1 c2 r IH] using string_pair_ind; intros k Hlen Hhex.
  - exists []. split; [reflexivity|]. simpl in Hlen. simpl. lia.
  - simpl in Hlen. lia.
  - simpl in Hlen. destruct k as [|k]; [lia|].
    cbn [all_hex] in Hhex.
    apply andb_prop in Hhex as [H1 Hhex]. apply andb_prop in Hhex as [H2 Hhex].
    unfold is_hex_digit in H1, H2.
    destruct (hex_digit_value c1) as [x|] eqn:E1; [|discriminate].
    destruct (hex_digit_value c2) as [y|] eqn:E2; [|discriminate].
    destruct (IH k ltac:(lia) Hhex) as (bs & Hbs & Hk).
    destruct (byte_of_nibbles_some x y) as [b Hb];
      [eapply hex_digit_value_bound; eassumption..|].
    exists (b :: bs). split; [|simpl; lia].
    cbn [unhexlify]. now rewrite E1, E2, Hbs, Hb.
Qed.

Lemma raw_address_valid t :
  is_hex_address t = true ->
  unhexlify (remove_0x_prefix t) = Some (raw_address t) /\ length (raw_address t) = 20%nat.
Proof.
  intros H. unfold is_hex_address in H. apply andb_prop in H as [Hlen Hhex].
  apply Nat.eqb_eq in Hlen.
  destruct (unhexlify_all_hex _ 20%nat Hlen Hhex) as (bs & Hbs & Hk).
  unfold raw_address. rewrite Hbs. auto.
Qed.

Section AddressBytes.
Variable up : string -> nat -> bool.

Lemma to_checksum_address_spec t :
  to_checksum_address up t
  = if is_hex_address t
    then Ok (String "0" (String "x"
               (checksum_case up (lower (remove_0x_prefix t)) 0 (lower (remove_0x_prefix t)))))
    else Raise ValueError.
Proof.
  unfold to_checksum_address. rewrite to_normalized_address_spec.
  destruct (is_hex_address t); reflexivity.
Qed.

Lemma address_bytes_valid t :
  is_hex_address t = true -> address_bytes up t = Ok (raw_address t).
Proof.
  intros H. unfold address_bytes. rewrite to_checksum_address_spec, H.
  cbn [rbind]. unfold to_bytes_hexstr.
  pose proof H as H'. unfold is_hex_address in H'. apply andb_prop in H' as [Hlen _].
  apply Nat.eqb_eq in Hlen.
  cbn [String.length]. rewrite length_checksum_case, length_lower, Hlen.
  cbn [Nat.odd Nat.even negb]. rewrite remove_0x_prefix_0x, unhexlify_checksum_case.
  now destruct (raw_address_valid t H) as [-> _].
Qed.

Lemma address_bytes_invalid t :
  is_hex_address t = false -> address_bytes up t = Raise ValueError.
Proof.
  intros H. unfold address_bytes. now rewrite to_checksum_address_spec, H.
Qed.

End AddressBytes.

Lemma byte_of_Z_ok z :
  0 <= z < 256 -> Byte.of_N (Z.to_N z) = Some (byte_of_Z z) /\ Z.of_N (Byte.to_N (byte_of_Z z)) = z.
Proof.
  intros Hz. unfold byte_of_Z.
  destruct (Byte.of_N (Z.to_N z)) as [b|] eqn:E.
  - split; [reflexivity|]. simpl. apply Byte.to_of_N in E. lia.
  - apply Byte.of_N_None_iff in E. lia.
Qed.

Lemma uint24_bytes n :
  uint24 n = true ->
  0 <= n / 65536 < 256 /\ 0 <= (n / 256) mod 256 < 256 /\ 0 <= n mod 256 < 256.
Proof.
  unfold uint24. intros H. apply andb_prop in H as [H1 H2].
  apply Z.leb_le in H1. apply Z.ltb_lt in H2. change (2 ^ 24) with 16777216 in H2.
  repeat split; try (apply Z.mod_pos_bound; lia).
  - apply Z.div_pos; lia.
  - apply Z.div_lt_upper_bound; lia.
Qed.

Lemma int_to_bytes3_spec n :
  int_to_bytes3 n = if uint24 n then Ok (be3 n) else Raise OverflowError.
Proof.
  unfold int_to_bytes3. fold (uint24 n).
  destruct (uint24 n) eqn:E; [|reflexivity].
  destruct (uint24_bytes n E) as (H2 & H1 & H0).
  destruct (byte_of_Z_ok _ H2) as [-> _].
  destruct (byte_of_Z_ok _ H1) as [-> _].
  destruct (byte_of_Z_ok _ H0) as [-> _].
  reflexivity.
Qed.

Lemma be3_value_be3 n :
  uint24 n = true ->
  be3_value (byte_of_Z (n / 65536)) (byte_of_Z ((n / 256) mod 256)) (byte_of_Z (n mod 256)) = n.
Proof.
  intros E. destruct (uint24_bytes n E) as (H2 & H1 & H0).
  pose proof (Z.div_mod n 256 ltac:(lia)).
  pose proof (Z.div_mod (n / 256) 256 ltac:(lia)).
  assert (Hd : n / 65536 = n / 256 / 256)
    by (rewrite Z.div_div by lia; reflexivity).
  unfold be3_value.
  destruct (byte_of_Z_ok _ H2) as [_ ->].
  destruct (byte_of_Z_ok _ H1) as [_ ->].
  destruct (byte_of_Z_ok _ H0) as [_ ->].
  lia.
Qed.

Section EncoderFacts.
Variable up : string -> nat -> bool.

Lemma encode_hops_outcome tokens fees : forall todo i path,
  (i + todo <= length tokens)%nat -> (i + todo <= length fees)%nat ->
  match encode_hops up tokens fees todo i path with
  | Ok bs =>
      Forall (fun t => is_hex_address t = true) (take todo (drop i tokens)) /\
      Forall (fun f => uint24 f = true) (take todo (drop i fees)) /\
      bs = path ++ hops (take todo (drop i tokens)) (take todo (drop i fees))
  | Raise e =>
      (e = ValueError /\
       Exists (fun t => is_hex_address t = false) (take todo (drop i tokens))) \/
      (e = OverflowError /\
       Exists (fun f => uint24 f = false) (take todo (drop i fees)))
  end.
Proof.
  induction todo as [|todo IH]; intros i path Ht Hf.
  - simpl. repeat split; try constructor. now rewrite app_nil_r.
  - destruct (lookup_lt_is_Some_2 tokens i ltac:(lia)) as [t Et].
    destruct (lookup_lt_is_Some_2 fees i ltac:(lia)) as [f Ef].
    rewrite (drop_S _ _ _ Et), (drop_S _ _ _ Ef).
    cbn [take encode_hops]. unfold item. rewrite Et, Ef. cbn [rbind].
    destruct (is_hex_address t) eqn:Vt.
    2:{ rewrite (address_bytes_invalid up t Vt). cbn [rbind].
        left. split; [reflexivity|]. now apply Exists_cons_hd. }
    rewrite (address_bytes_valid up t Vt). cbn [rbind].
    rewrite int_to_bytes3_spec.
    destruct (uint24 f) eqn:Vf; cbn [rbind].
    2:{ right. split; [reflexivity|]. now apply Exists_cons_hd. }
    specialize (IH (S i) ((path ++ raw_address t) ++ be3 f) ltac:(lia) ltac:(lia)).
    destruct (encode_hops up tokens fees todo (S i) _) as [bs|e].
    + destruct IH as (IHt & IHf & ->). repeat split; try (constructor; assumption).
      cbn [hops]. now rewrite <- !app_assoc.
    + destruct IH as [[-> IH]|[-> IH]]; [left|right];
        (split; [reflexivity|now apply Exists_cons_tl]).
Qed.

Lemma spec_path_hops init : forall fees lst,
  length init = length fees ->
  spec_path (map raw_address (init ++ [lst])) (map be3 fees)
  = hops init fees ++ raw_address lst.
Proof.
  induction init as [|t init IH]; intros [|f fees] lst Hlen; try discriminate Hlen.
  - simpl. reflexivity.
  - cbn [app map spec_path hops]. rewrite IH by (simpl in Hlen; lia).
    now rewrite <- !app_assoc.
Qed.

(** What [encode_v3_path] does on every input. *)
Lemma encode_v3_path_outcome tokens fees :
  match encode_v3_path up tokens fees with
  | Ok bs =>
      Z.of_nat (length fees) = Z.of_nat (length tokens) - 1 /\
      Forall (fun t => is_hex_address t = true) tokens /\
      Forall (fun f => uint24 f = true) fees /\
      bs = spec_path (map raw_address tokens) (map be3 fees)
  | Raise e =>
      (e = ValueError /\
       (Z.of_nat (length fees) <> Z.of_nat (length tokens) - 1 \/
        Exists (fun t => is_hex_address t = false) tokens)) \/
      (e = OverflowError /\
       Z.of_nat (length fees) = Z.of_nat (length tokens) - 1 /\
       Exists (fun f => uint24 f = false) fees)
  end.
Proof.
  unfold encode_v3_path.
  destruct (Z.of_nat (length fees) =? Z.of_nat (length tokens) - 1) eqn:Ecount;
    cbn [negb].
  - apply Z.eqb_eq in Ecount.
    destruct (last tokens) as [lst|] eqn:Elast.
    2:{ apply last_None in Elast. subst tokens. simpl in Ecount. lia. }
    apply last_Some in Elast as [init ->].
    rewrite length_app in Ecount. simpl in Ecount.
    assert (Hlen : length init = length fees) by lia.
    pose proof (encode_hops_outcome (init ++ [lst]) fees (length fees) 0 [])
      as Hloop.
    rewrite !drop_0, firstn_all, <- Hlen, take_app_length in Hloop.
    specialize (Hloop ltac:(rewrite length_app; simpl; lia) ltac:(lia)).
    rewrite <- Hlen.
    destruct (encode_hops up (init ++ [lst]) fees (length init) 0 []) as [path|e];
      cbn [rbind].
    + destruct Hloop as (Hinit & Hfees & ->).
      unfold last_item. rewrite last_snoc. cbn [rbind].
      destruct (is_hex_address lst) eqn:Vl.
      * rewrite (address_bytes_valid up lst Vl). cbn [rbind].
        split; [rewrite length_app; simpl; lia|].
        split; [apply Forall_app; split; [assumption|now constructor]|].
        split; [assumption|].
        now rewrite spec_path_hops.
      * rewrite (address_bytes_invalid up lst Vl). cbn [rbind].
        left. split; [reflexivity|]. right. apply Exists_app. right.
        now apply Exists_cons_hd.
    + destruct Hloop as [[-> Hex]|[-> Hex]].
      * left. split; [reflexivity|]. right. apply Exists_app. now left.
      * right. split; [reflexivity|]. split; [rewrite length_app; simpl; lia|assumption].
  - apply Z.eqb_neq in Ecount. left. split; [reflexivity|]. now left.
Qed.

End EncoderFacts.

Lemma length_spec_path addrs : forall tiers,
  length addrs = S (length tiers) ->
  Forall (fun a => length a = 20%nat) addrs ->
  Forall (fun t => length t = 3%nat) tiers ->
  length (spec_path addrs tiers) = (20 * length addrs + 3 * length tiers)%nat.
Proof.
  induction addrs as [|a addrs IH]; intros tiers Hlen Ha Ht; [discriminate Hlen|].
  inversion Ha as [|? ? Ha0 Ha']; subst.
  destruct tiers as [|t tiers].
  - destruct addrs; [|discriminate Hlen]. simpl. lia.
  - inversion Ht as [|? ? Ht0 Ht']; subst.
    cbn [spec_path]. rewrite !length_app, IH by (simpl in Hlen; auto with lia).
    simpl. lia.
Qed.

Lemma decode_spec_path addrs : forall fees fuel,
  length addrs = S (length fees) ->
  Forall (fun a => length a = 20%nat) addrs ->
  Forall (fun f => uint24 f = true) fees ->
  (length addrs <= fuel)%nat ->
  decode_path fuel (spec_path addrs (map be3 fees)) = Some (addrs, fees).
Proof.
  induction addrs as [|a addrs IH]; intros fees fuel Hlen Ha Hf Hfuel;
    [discriminate Hlen|].
  inversion Ha as [|? ? Ha0 Ha']; subst.
  destruct fuel as [|fuel]; [simpl in Hfuel; lia|].
  destruct fees as [|f fees].
  - destruct addrs; [|discriminate Hlen]. cbn [map spec_path decode_path].
    rewrite Ha0. cbn [Nat.ltb Nat.leb].
    rewrite drop_ge by lia. rewrite take_ge by lia. reflexivity.
  - inversion Hf as [|? ? Hf0 Hf']; subst.
    cbn [map spec_path decode_path]. rewrite length_app, Ha0.
    replace (20 + _ <? 20)%nat with false by (symmetry; apply Nat.ltb_ge; lia).
    rewrite <- Ha0 at 1. rewrite drop_app_length.
    cbn [be3 app].
    rewrite IH by (simpl in *; auto with lia).
    rewrite <- Ha0 at 1. rewrite take_app_length.
    now rewrite be3_value_be3.
Qed.

Lemma Forall_Exists_false {A} (P : A -> bool) (l : list A) :
  Forall (fun x => P x = true) l -> Exists (fun x => P x = false) l -> False.
Proof.
  intros HF HE. apply Exists_exists in HE as (x & Hin & Hx).
  rewrite Forall_forall in HF. specialize (HF x Hin). congruence.
Qed.

Lemma not_Forall_Exists_false {A} (P : A -> bool) (l : list A) :
  ~ Forall (fun x => P x = true) l -> Exists (fun x => P x = false) l.
Proof.
  induction l as [|x l IH]; intros H.
  - destruct H. constructor.
  - destruct (P x) eqn:E.
    + apply Exists_cons_tl, IH. intros HF. apply H. now constructor.
    + now apply Exists_cons_hd.
Qed.

Lemma encode_v3_path_valid up tokens fees :
  Z.of_nat (length fees) = Z.of_nat (length tokens) - 1 ->
  Forall (fun t => is_hex_address t = true) tokens ->
  Forall (fun f => uint24 f = true) fees ->
  encode_v3_path up tokens fees = Ok (spec_path (map raw_address tokens) (map be3 fees)).
Proof.
  intros Hcount Ht Hf. pose proof (encode_v3_path_outcome up tokens fees) as H.
  destruct (encode_v3_path up tokens fees) as [bs|e].
  - now destruct H as (_ & _ & _ & ->).
  - exfalso. destruct H as [[_ [H|H]]|[_ [_ H]]].
    + contradiction.
    + eapply (Forall_Exists_false is_hex_address); eassumption.
    + eapply (Forall_Exists_false uint24); eassumption.
Qed.

(** ** Path encoder *)

(** C3. For at least two token addresses (optional [0x], forty
    hexadecimal digits) and one fee tier less than tokens, each tier
    fitting three bytes, [encode_v3_path] returns each token's 20 raw
    bytes followed by its tier as 3 bytes, most significant first, closed
    by the last token's 20 bytes: [20 * tokens + 3 * (tokens - 1)] bytes
    in all, from which the decoder reads the raw addresses and the tiers
    back. *)
Theorem encode_v3_path_layout up tokens fees :
  (2 <= length tokens)%nat ->
  length fees = (length tokens - 1)%nat ->
  Forall (fun t => is_hex_address t = true) tokens ->
  Forall (fun f => uint24 f = true) fees ->
  exists path,
    encode_v3_path up tokens fees = Ok path /\
    path = spec_path (map raw_address tokens) (map be3 fees) /\
    Forall (fun a => length a = 20%nat) (map raw_address tokens) /\
    length path = (20 * length tokens + 3 * (length tokens - 1))%nat /\
    decode_path (length path) path = Some (map raw_address tokens, fees).
Proof.
  intros Hmin Hlen Ht Hf.
  assert (H20 : Forall (fun a => length a = 20%nat) (map raw_address tokens)).
  { apply Forall_map. eapply Forall_impl; [exact Ht|].
    intros t Vt. now destruct (raw_address_valid t Vt). }
  assert (H3 : Forall (fun t => length t = 3%nat) (map be3 fees)).
  { apply Forall_map. apply Forall_forall. reflexivity. }
  assert (Hsize : length (spec_path (map raw_address tokens) (map be3 fees))
                  = (20 * length tokens + 3 * (length tokens - 1))%nat).
  { rewrite length_spec_path; rewrite ?length_map; auto with lia. }
  exists (spec_path (map raw_address tokens) (map be3 fees)).
  split; [apply encode_v3_path_valid; auto with lia|].
  split; [reflexivity|]. split; [exact H20|]. split; [exact Hsize|].
  apply decode_spec_path; rewrite ?length_map; auto with lia.
Qed.

Lemma encode_v3_path_layout_witness :
  exists path,
    encode_v3_path no_upper [token_a; token_b] [3000] = Ok path /\
    length path = 43%nat /\
    decode_path (length path) path = Some ([raw_address token_a; raw_address token_b], [3000]).
Proof.
  destruct (encode_v3_path_layout no_upper [token_a; token_b] [3000])
    as (path & Henc & _ & _ & Hsize & Hdec).
  - simpl. lia.
  - reflexivity.
  - repeat constructor.
  - repeat constructor.
  - exists path. split; [exact Henc|]. split; [exact Hsize|exact Hdec].
Defined.

(** C4 (as the code has it). [encode_v3_path] raises exactly when the
    number of fee tiers is not the number of tokens minus one, or a token
    is not a hex address, or a fee tier does not fit three bytes.  The
    first two raise [ValueError]; a tier out of range raises
    [OverflowError].  The number of tokens is not checked on its own: no
    token at all fails the count test, and one token without tiers is
    encoded as its 20 bytes.  The function has no effect besides its
    result. *)
Theorem encode_v3_path_failures up tokens fees :
  (is_ok (encode_v3_path up tokens fees) = false <->
     Z.of_nat (length fees) <> Z.of_nat (length tokens) - 1 \/
     Exists (fun t => is_hex_address t = false) tokens \/
     Exists (fun f => uint24 f = false) fees) /\
  (forall e, encode_v3_path up tokens fees = Raise e ->
     (e = ValueError /\
      (Z.of_nat (length fees) <> Z.of_nat (length tokens) - 1 \/
       Exists (fun t => is_hex_address t = false) tokens)) \/
     (e = OverflowError /\
      Z.of_nat (length fees) = Z.of_nat (length tokens) - 1 /\
      Exists (fun f => uint24 f = false) fees)) /\
  (Z.of_nat (length fees) <> Z.of_nat (length tokens) - 1 ->
     encode_v3_path up tokens fees = Raise ValueError) /\
  (forall t, tokens = [t] -> fees = [] -> is_hex_address t = true ->
     encode_v3_path up tokens fees = Ok (raw_address t)).
Proof.
  pose proof (encode_v3_path_outcome up tokens fees) as H.
  split; [|split; [|split]].
  - split.
    + destruct (encode_v3_path up tokens fees) as [bs|e]; [discriminate|].
      intros _. destruct H as [[_ [H|H]]|[_ [_ H]]]; auto.
    + intros Hbad.
      destruct (encode_v3_path up tokens fees) as [bs|e]; [|reflexivity].
      exfalso. destruct H as (Hcount & Ht & Hf & _).
      destruct Hbad as [Hbad|[Hbad|Hbad]].
      * contradiction.
      * eapply (Forall_Exists_false is_hex_address); eassumption.
      * eapply (Forall_Exists_false uint24); eassumption.
  - intros e E. now rewrite E in H.
  - intros Hcount. unfold encode_v3_path.
    apply Z.eqb_neq in Hcount. now rewrite Hcount.
  - intros t -> -> Vt. rewrite encode_v3_path_valid; auto.
Qed.

Lemma encode_v3_path_failures_witness :
  encode_v3_path no_upper [token_a; token_b] [3000; 500] = Raise ValueError /\
  is_ok (encode_v3_path no_upper [token_a; token_b] [16777216]) = false.
Proof.
  split.
  - destruct (encode_v3_path_failures no_upper [token_a; token_b] [3000; 500])
      as (_ & _ & Hcount & _).
    apply Hcount. simpl. lia.
  - destruct (encode_v3_path_failures no_upper [token_a; token_b] [16777216])
      as (Hiff & _).
    apply Hiff. right. right. apply Exists_cons_hd. reflexivity.
Defined.

(** C4, refuted as worded: a route of one token and no fee tier has
    fewer than two tokens, yet it is encoded. *)
Lemma single_token_route_is_encoded :
  (length [token_a] < 2)%nat /\
  encode_v3_path no_upper [token_a] [] = Ok (raw_address token_a) /\
  length (raw_address token_a) = 20%nat.
Proof. split; [simpl; lia|]. split; reflexivity. Qed.

(** ** Admission controller *)

Lemma rate_limit_dep_local cfg n now request ident s :
  rate_table cfg = false ->
  RATE_WINDOW cfg <> 0 ->
  request_ident request = Ok ident ->
  rate_limit_dep cfg n now request s
  = local_limit cfg ident (now / RATE_WINDOW cfg) s.
Proof.
  intros Htable Hw Hid. unfold rate_limit_dep, floordiv.
  rewrite Hid, Htable. apply Z.eqb_neq in Hw. rewrite Hw. reflexivity.
Qed.

Lemma local_limit_step cfg ident window s :
  local_limit cfg ident window s
  = (let cnt := default 0 (_rate_cache s !! (ident, window)) + 1 in
     (set_rate_cache
        (fun _ => filter (fun kv => snd (fst kv) = window)
                    (<[(ident, window) := cnt]> (_rate_cache s))) s,
      if RATE_LIMIT cfg <? cnt
      then Raise (HTTPException 429 (rate_limit_detail cfg cnt))
      else Ok tt)).
Proof.
  unfold local_limit, bind, get_state, modify, raise, ret. cbn.
  destruct (RATE_LIMIT cfg <? _); reflexivity.
Qed.








Lemma rate_limit_dep_shared cfg n now request ident s :
  rate_table cfg = true ->
  RATE_WINDOW cfg <> 0 ->
  request_ident request = Ok ident ->
  rate_limit_dep cfg n now request s
  = match distributed_limit cfg n ident (now / RATE_WINDOW cfg) s with
    | (s1, Ok _) => local_limit cfg ident (now / RATE_WINDOW cfg) s1
    | (s1, Raise e) => (s1, Raise e)
    end.
Proof.
  intros Htable Hw Hid. unfold rate_limit_dep, floordiv.
  rewrite Hid, Htable. apply Z.eqb_neq in Hw. rewrite Hw. reflexivity.
Qed.






(** ** Fee estimator *)













(* ===================================================================== *)
(** * Further properties of the backend *)
(* ===================================================================== *)

(** ** Authentication *)

Lemma auth_dep_passes API_KEY request :
  auth_dep API_KEY request = Ok tt <->
  truthy_str API_KEY = None \/
  (exists k, truthy_str API_KEY = Some k /\ x_api_key request = Some k).
Proof.
  unfold auth_dep. destruct (truthy_str API_KEY) as [k|] eqn:E.
  - destruct (decide (x_api_key request = Some k)) as [H|H].
    + split; [|reflexivity]. intros _. right. eauto.
    + split; [discriminate|]. intros [Hn|(k' & [= <-] & Hk)]; [discriminate|contradiction].
  - split; [now left|reflexivity].
Qed.

Lemma truthy_str_Some o k : truthy_str o = Some k -> o = Some k /\ k <> ""%string.
Proof. destruct o as [[|c r]|]; cbn; intros [= <-]; split; congruence. Qed.

Lemma truthy_str_nonempty k : k <> ""%string -> truthy_str (Some k) = Some k.
Proof. destruct k; [congruence|reflexivity]. Qed.

(** X1. [auth_dep] lets a request through exactly when no key is
    configured ([API_KEY] unset or empty) or the request's [X-API-Key]
    header is the configured key; every other request is answered with
    HTTP 401 [Unauthorized], and with no other exception. *)
Theorem auth_dep_decides API_KEY request :
  (auth_dep API_KEY request = Ok tt <->
     truthy_str API_KEY = None \/
     (exists k, truthy_str API_KEY = Some k /\ x_api_key request = Some k)) /\
  (forall e, auth_dep API_KEY request = Raise e -> e = HTTPException 401 "Unauthorized") /\
  (API_KEY = None \/ API_KEY = Some ""%string -> auth_dep API_KEY request = Ok tt).
Proof.
  split; [apply auth_dep_passes|]. split.
  - unfold auth_dep. destruct (truthy_str API_KEY); [|discriminate].
    destruct (decide _); [discriminate|]. now intros e [= <-].
  - intros [-> | ->]; reflexivity.
Qed.

Lemma auth_dep_decides_witness :
  auth_dep None caller = Ok tt /\ auth_dep (Some "key-1"%string) caller = Ok tt.
Proof.
  split.
  - destruct (auth_dep_decides None caller) as (_ & _ & Hopen).
    apply Hopen. now left.
  - destruct (auth_dep_decides (Some "key-1"%string) caller) as (Hiff & _ & _).
    apply Hiff. right. exists "key-1"%string. split; reflexivity.
Defined.

Lemma authenticated_request_ident API_KEY k request :
  truthy_str API_KEY = Some k ->
  auth_dep API_KEY request = Ok tt ->
  request_ident request = Ok k.
Proof.
  intros Hk Hauth. apply auth_dep_passes in Hauth as [Hn|(k' & Hk' & Hreq)]; [congruence|].
  assert (k' = k) as -> by congruence.
  apply truthy_str_Some in Hk as [_ Hne].
  unfold request_ident. rewrite Hreq, (truthy_str_nonempty k Hne). reflexivity.
Qed.

(** X2. With a key configured, every request that passes [auth_dep] is
    counted by [rate_limit_dep] under one identity, the key itself: two
    such requests, whatever hosts they come from, are indistinguishable
    to the limiter. *)
Theorem authenticated_requests_share_counter API_KEY k cfg n now r1 r2 s :
  truthy_str API_KEY = Some k ->
  auth_dep API_KEY r1 = Ok tt ->
  auth_dep API_KEY r2 = Ok tt ->
  request_ident r1 = Ok k /\
  rate_limit_dep cfg n now r1 s = rate_limit_dep cfg n now r2 s.
Proof.
  intros Hk H1 H2.
  pose proof (authenticated_request_ident _ _ _ Hk H1) as E1.
  pose proof (authenticated_request_ident _ _ _ Hk H2) as E2.
  split; [exact E1|]. unfold rate_limit_dep. now rewrite E1, E2.
Qed.

Lemma authenticated_requests_share_counter_witness :
  request_ident caller = Ok "key-1"%string /\
  rate_limit_dep sample_cfg sample_node 0 caller initial_state
  = rate_limit_dep sample_cfg sample_node 0 other_caller initial_state.
Proof.
  apply (authenticated_requests_share_counter (Some "key-1"%string) "key-1"%string
           sample_cfg sample_node 0 caller other_caller initial_state); reflexivity.
Defined.

(** ** The local limiter *)

(** X3. Without a rate table, a request whose identity has no count yet
    in the current window is let through whenever the limit is at least
    1, and leaves a count of 1; the counts of earlier windows do not
    matter. *)
Theorem first_request_of_a_window_passes cfg n now request ident s :
  rate_table cfg = false ->
  RATE_WINDOW cfg <> 0 ->
  1 <= RATE_LIMIT cfg ->
  request_ident request = Ok ident ->
  _rate_cache s !! (ident, now / RATE_WINDOW cfg) = None ->
  snd (rate_limit_dep cfg n now request s) = Ok tt /\
  _rate_cache (fst (rate_limit_dep cfg n now request s)) !! (ident, now / RATE_WINDOW cfg)
  = Some 1.
Proof.
  intros Htable Hw Hlimit Hid Hfresh.
  rewrite (rate_limit_dep_local cfg n now request ident s Htable Hw Hid), local_limit_step.
  rewrite Hfresh. cbn [default from_option id fst snd _rate_cache set_rate_cache].
  split.
  - destruct (RATE_LIMIT cfg <? 0 + 1) eqn:L; [|reflexivity]. apply Z.ltb_lt in L. lia.
  - apply map_lookup_filter_Some. split; [apply lookup_insert_eq|reflexivity].
Qed.

Lemma first_request_of_a_window_passes_witness :
  snd (rate_limit_dep sample_cfg sample_node 0 caller initial_state) = Ok tt /\
  _rate_cache (fst (rate_limit_dep sample_cfg sample_node 0 caller initial_state))
    !! ("key-1"%string, 0 / RATE_WINDOW sample_cfg)
  = Some 1.
Proof.
  apply (first_request_of_a_window_passes sample_cfg sample_node 0 caller
           "key-1"%string initial_state).
  - reflexivity.
  - discriminate.
  - cbn. lia.
  - reflexivity.
  - apply lookup_empty.
Defined.

Lemma local_burst cfg n ident w :
  rate_table cfg = false ->
  RATE_WINDOW cfg <> 0 ->
  forall trace s,
    Forall (fun rq => request_ident (fst rq) = Ok ident /\ snd rq / RATE_WINDOW cfg = w) trace ->
    run_requests cfg n trace s
    = map (outcome_at cfg)
        (seqZ (default 0 (_rate_cache s !! (ident, w)) + 1) (Z.of_nat (length trace))).
Proof.
  intros Htable Hw. induction trace as [|[request now] trace IH]; intros s Hall.
  - reflexivity.
  - inversion Hall as [|? ? [Hid Hwin] Hall']; subst. cbn [fst snd] in *.
    cbn [run_requests].
    rewrite (rate_limit_dep_local cfg n now request ident s Htable Hw Hid), local_limit_step.
    cbv beta iota zeta. rewrite IH by assumption.
    cbn [_rate_cache set_rate_cache length].
    rewrite (proj2 (map_lookup_filter_Some _ _ (ident, now / RATE_WINDOW cfg)
                      (default 0 (_rate_cache s !! (ident, now / RATE_WINDOW cfg)) + 1)))
      by (split; [apply lookup_insert_eq|reflexivity]).
    rewrite Nat2Z.inj_succ, (seqZ_cons _ (Z.succ _)) by lia.
    rewrite Z.pred_succ.
    cbn [map default from_option id]. unfold outcome_at at 2.
    f_equal.
Qed.

(** X4. Without a rate table, a run of requests of one identity that all
    fall in one window, started from an empty cache, is answered by the
    counts 1, 2, 3, ...: request number [i] (from 0) is let through
    exactly when [i < RATE_LIMIT], so the first [RATE_LIMIT] pass and
    every later one is answered with HTTP 429. *)
Theorem burst_in_one_window cfg n ident w trace :
  rate_table cfg = false ->
  RATE_WINDOW cfg <> 0 ->
  Forall (fun rq => request_ident (fst rq) = Ok ident /\ snd rq / RATE_WINDOW cfg = w) trace ->
  run_requests cfg n trace initial_state
  = map (outcome_at cfg) (seqZ 1 (Z.of_nat (length trace))) /\
  (forall i r, run_requests cfg n trace initial_state !! i = Some r ->
     (r = Ok tt <-> Z.of_nat i < RATE_LIMIT cfg)).
Proof.
  intros Htable Hw Hall.
  pose proof (local_burst cfg n ident w Htable Hw trace initial_state Hall) as Hrun.
  change (default 0 (_rate_cache initial_state !! (ident, w)) + 1) with 1 in Hrun.
  split; [exact Hrun|].
  intros i r Hr. rewrite Hrun in Hr.
  apply (list_lookup_fmap_Some (outcome_at cfg)) in Hr as (c & -> & Hc).
  apply lookup_seqZ in Hc as [-> _]. unfold outcome_at.
  destruct (RATE_LIMIT cfg <? 1 + Z.of_nat i) eqn:L.
  - apply Z.ltb_lt in L. split; [discriminate|lia].
  - apply Z.ltb_ge in L. split; [lia|reflexivity].
Qed.

Lemma burst_in_one_window_witness :
  run_requests sample_cfg sample_node burst initial_state
  = [Ok tt; Ok tt; Ok tt; Raise (HTTPException 429 "Rate limit exceeded: 4/3 in 60s")].
Proof.
  destruct (burst_in_one_window sample_cfg sample_node "key-1"%string 0 burst) as [Hrun _].
  - reflexivity.
  - discriminate.
  - repeat constructor.
  - rewrite Hrun. reflexivity.
Defined.

(** X5. Without a rate table, after a request the cache holds counts of
    that request's window only; the requester's count is one more than
    before, the counts other identities have in that window are
    untouched, and the cache has grown by at most one entry. *)
Theorem local_limiter_cache cfg n now request ident s :
  rate_table cfg = false ->
  RATE_WINDOW cfg <> 0 ->
  request_ident request = Ok ident ->
  let w := now / RATE_WINDOW cfg in
  let cache' := _rate_cache (fst (rate_limit_dep cfg n now request s)) in
  (forall i w' c, cache' !! (i, w') = Some c -> w' = w) /\
  cache' !! (ident, w) = Some (default 0 (_rate_cache s !! (ident, w)) + 1) /\
  (forall i, i <> ident -> cache' !! (i, w) = _rate_cache s !! (i, w)) /\
  (size cache' <= S (size (_rate_cache s)))%nat.
Proof.
  intros Htable Hw Hid w cache'. subst cache'.
  rewrite (rate_limit_dep_local cfg n now request ident s Htable Hw Hid), local_limit_step.
  fold w. cbn [fst _rate_cache set_rate_cache].
  split; [|split; [|split]].
  - intros i w' c Hc. apply map_lookup_filter_Some in Hc as [_ Hc]. exact Hc.
  - apply map_lookup_filter_Some. split; [apply lookup_insert_eq|reflexivity].
  - intros i Hne. rewrite map_lookup_filter.
    rewrite lookup_insert_ne by congruence.
    destruct (_rate_cache s !! (i, w)) as [c|]; [|reflexivity]. cbn.
    rewrite option_guard_True by reflexivity. reflexivity.
  - etransitivity; [apply map_subseteq_size, map_filter_subseteq|].
    destruct (_rate_cache s !! (ident, w)) as [c|] eqn:E.
    + rewrite map_size_insert_Some by eauto. lia.
    + rewrite map_size_insert_None by assumption. lia.
Qed.

Lemma local_limiter_cache_witness :
  (size (_rate_cache (fst (rate_limit_dep sample_cfg sample_node 61 caller
                             (state_after sample_cfg sample_node burst initial_state))))
   <= 2)%nat /\
  forall i w' c,
    _rate_cache (fst (rate_limit_dep sample_cfg sample_node 61 caller
                        (state_after sample_cfg sample_node burst initial_state)))
      !! (i, w') = Some c ->
    w' = 1.
Proof.
  pose proof (local_limiter_cache sample_cfg sample_node 61 caller "key-1"%string
                (state_after sample_cfg sample_node burst initial_state)
                eq_refl ltac:(discriminate) eq_refl) as H.
  cbv zeta in H. destruct H as (Hwin & _ & _ & Hsize).
  split; [exact Hsize|exact Hwin].
Defined.

(** ** The rate table *)

(** X6. With a rate table, a failure of the table that is not an
    [HTTPException] never fails the request: it is logged as a warning
    and the local limiter decides.  This holds when [update_item] fails
    (the table is left as it was) and when the [put_item] that resets a
    stale window fails (the table keeps the stale window with its count
    raised by one). *)
Theorem table_fault_falls_back_to_local cfg n now request ident s :
  rate_table cfg = true ->
  RATE_WINDOW cfg <> 0 ->
  request_ident request = Ok ident ->
  (forall e,
     update_item_fault n = Some e -> is_http e = false ->
     rate_limit_dep cfg n now request s
     = local_limit cfg ident (now / RATE_WINDOW cfg)
         (set_events (fun l => l ++ [table_warning e]) s)) /\
  (forall e w0 c,
     update_item_fault n = None -> put_item_fault n = Some e -> is_http e = false ->
     rate_items s !! _rate_key ident = Some (w0, c) ->
     w0 <> now / RATE_WINDOW cfg ->
     rate_limit_dep cfg n now request s
     = local_limit cfg ident (now / RATE_WINDOW cfg)
         (set_events (fun l => l ++ [table_warning e])
            (set_rate_items (fun t => <[_rate_key ident := (w0, c + 1)]> t) s))).
Proof.
  intros Htable Hw Hid.
  split.
  - intros e Hu Hhttp.
    rewrite (rate_limit_dep_shared cfg n now request ident s Htable Hw Hid).
    unfold distributed_limit, try_except, bind, lift. rewrite Hu. cbn [of_fault].
    destruct e; try discriminate Hhttp; reflexivity.
  - intros e w0 c Hu Hp Hhttp Hitem Hne.
    rewrite (rate_limit_dep_shared cfg n now request ident s Htable Hw Hid).
    unfold distributed_limit, try_except, bind, lift, get_state, modify.
    rewrite Hu, Hp, Hitem. cbn [of_fault fst snd].
    apply Z.eqb_neq in Hne. rewrite Hne. cbn [negb of_fault].
    destruct e; try discriminate Hhttp; reflexivity.
Qed.

Lemma table_fault_falls_back_to_local_witness :
  rate_limit_dep shared_cfg table_down_node 0 caller initial_state
  = ({| events := [table_warning (NodeError "throttled")];
        _rate_cache := {[ ("key-1"%string, 0) := 1 ]};
        rate_items := ∅ |},
     Ok tt).
Proof.
  destruct (table_fault_falls_back_to_local shared_cfg table_down_node 0 caller
              "key-1"%string initial_state eq_refl ltac:(discriminate) eq_refl)
    as [Hdown _].
  rewrite (Hdown (NodeError "throttled") eq_refl eq_refl). reflexivity.
Defined.

(** X7. With a working rate table, a request that the table counts
    beyond the limit in the current window is answered with HTTP 429
    carrying the table's count, and the local limiter is not reached:
    the table's count has gone up, the local cache is as it was. *)
Theorem table_rejection_skips_local cfg n now request ident s c :
  rate_table cfg = true ->
  RATE_WINDOW cfg <> 0 ->
  request_ident request = Ok ident ->
  update_item_fault n = None ->
  rate_items s !! _rate_key ident = Some (now / RATE_WINDOW cfg, c) ->
  RATE_LIMIT cfg < c + 1 ->
  rate_limit_dep cfg n now request s
  = (set_rate_items (fun t => <[_rate_key ident := (now / RATE_WINDOW cfg, c + 1)]> t) s,
     Raise (HTTPException 429 (rate_limit_detail cfg (c + 1)))).
Proof.
  intros Htable Hw Hid Hu Hitem Hlimit.
  rewrite (rate_limit_dep_shared cfg n now request ident s Htable Hw Hid).
  unfold distributed_limit, try_except, bind, lift, get_state, modify, raise, ret.
  rewrite Hu, Hitem. cbn [of_fault fst snd]. rewrite Z.eqb_refl. cbn [negb].
  apply Z.ltb_lt in Hlimit. rewrite Hlimit. reflexivity.
Qed.

Lemma table_rejection_skips_local_witness :
  snd (rate_limit_dep shared_cfg sample_node 10 caller full_table_state)
  = Raise (HTTPException 429 "Rate limit exceeded: 4/3 in 60s") /\
  _rate_cache (fst (rate_limit_dep shared_cfg sample_node 10 caller full_table_state)) = ∅.
Proof.
  rewrite (table_rejection_skips_local shared_cfg sample_node 10 caller "key-1"%string
             full_table_state 3).
  - split; reflexivity.
  - reflexivity.
  - discriminate.
  - reflexivity.
  - reflexivity.
  - reflexivity.
  - cbn. lia.
Defined.

(** ** Fees within their cap *)

Lemma sum_first_nonneg rewards : forall acc total,
  0 <= acc ->
  Forall (Forall (fun r => 0 <= r)) rewards ->
  sum_first acc rewards = Ok total -> 0 <= total.
Proof.
  induction rewards as [|r rewards IH]; intros acc total Hacc Hrows.
  - cbn. intros [= <-]. exact Hacc.
  - inversion Hrows as [|? ? Hr Hrows']; subst.
    cbn [sum_first]. unfold item.
    destruct r as [|x r]; cbn; [discriminate|].
    inversion Hr; subst. apply IH; [lia|assumption].
Qed.

Lemma round_half_even_nonneg a d : 0 <= a -> 0 < d -> 0 <= round_half_even a d.
Proof.
  intros Ha Hd. unfold round_half_even.
  pose proof (Z.div_pos a d Ha Hd).
  destruct (_ || _); lia.
Qed.

Lemma truediv_nonneg a b f :
  0 <= a -> 0 < b -> truediv a b = Ok f -> 0 <= mant f.
Proof.
  intros Ha Hb. unfold truediv.
  rewrite (proj2 (Z.eqb_neq b 0)) by lia.
  destruct (a =? 0) eqn:E0.
  - intros [= <-]. cbn. lia.
  - apply Z.eqb_neq in E0.
    rewrite (Z.abs_eq a), (Z.abs_eq b) by lia.
    unfold truediv_pos.
    destruct (2 ^ 1024 <=? _); [discriminate|].
    intros [= <-]. cbn [mant].
    rewrite (Z.sgn_pos a), (Z.sgn_pos b) by lia. rewrite !Z.mul_1_l.
    destruct (0 <=? ulp_exponent a b) eqn:Ee.
    + apply Z.leb_le in Ee. apply round_half_even_nonneg; [lia|].
      apply Z.mul_pos_pos; [lia|]. apply Z.pow_pos_nonneg; lia.
    + apply Z.leb_gt in Ee. apply round_half_even_nonneg; [|lia].
      apply Z.mul_nonneg_nonneg; [lia|]. apply Z.pow_nonneg. lia.
Qed.

Lemma int_of_float_nonneg f : 0 <= mant f -> 0 <= int_of_float f.
Proof.
  intros Hm. unfold int_of_float.
  destruct (0 <=? expo f) eqn:Ee.
  - apply Z.mul_nonneg_nonneg; [lia|]. apply Z.pow_nonneg. lia.
  - apply Z.leb_gt in Ee. apply Z.quot_pos; [lia|].
    apply Z.pow_pos_nonneg; lia.
Qed.

Lemma last_Forall {A} (P : A -> Prop) l x : Forall P l -> last l = Some x -> P x.
Proof.
  intros HF Hl. apply last_Some in Hl as [l' ->].
  apply Forall_app in HF as [_ HF]. now inversion HF.
Qed.

(** X8. When the node reports no negative base fee or reward and a gas
    price of at least 1 gwei, every pair [suggest_fees] returns is a
    valid EIP-1559 pair: the tip is not negative and does not exceed the
    maximum fee, whichever branch produced it and however large the
    rewards are. *)
Theorem suggest_fees_priority_within_cap n max_fee tip :
  (forall hist, fee_history n = Ok hist -> nonneg_history hist) ->
  (forall gp, gas_price n = Ok gp -> one_gwei <= gp) ->
  suggest_fees n = Ok (max_fee, tip) ->
  0 <= tip <= max_fee.
Proof.
  intros Hhist Hgp. unfold suggest_fees, last_item.
  assert (Hfallback :
    (let+ gp := gas_price n in Ok (gp, one_gwei)) = Ok (max_fee, tip) ->
    0 <= tip <= max_fee).
  { destruct (gas_price n) as [gp|e]; cbn; [|discriminate].
    intros [= <- <-]. specialize (Hgp gp eq_refl). unfold one_gwei in *. lia. }
  destruct (fee_history n) as [hist|e] eqn:Hh; cbn [rbind]; [|exact Hfallback].
  destruct (Hhist hist eq_refl) as [Hbase Hrows].
  destruct (last (baseFeePerGas hist)) as [base|] eqn:Hb; cbn [rbind]; [|exact Hfallback].
  pose proof (last_Forall _ _ _ Hbase Hb) as Hbase0. cbn beta in Hbase0.
  destruct (default [] (reward hist)) as [|r rewards] eqn:Hr.
  - cbn. intros [= <- <-]. unfold one_gwei. lia.
  - destruct (sum_first 0 (r :: rewards)) as [total|e] eqn:Hsum; cbn [rbind];
      [|exact Hfallback].
    pose proof (sum_first_nonneg _ _ _ (Z.le_refl 0) Hrows Hsum) as Htotal.
    destruct (truediv total _) as [f|e] eqn:Hdiv; cbn [rbind]; [|exact Hfallback].
    intros [= <- <-].
    apply truediv_nonneg in Hdiv; [|exact Htotal|lia].
    apply int_of_float_nonneg in Hdiv. lia.
Qed.

Lemma suggest_fees_priority_within_cap_witness :
  suggest_fees priced_node = Ok (130, 15) /\ 0 <= 15 <= 130.
Proof.
  split; [reflexivity|].
  apply (suggest_fees_priority_within_cap priced_node 130 15).
  - intros hist [= <-]. split; repeat constructor; lia.
  - intros gp [= <-]. unfold one_gwei. lia.
  - reflexivity.
Defined.

(** ** Filling a transaction *)

(** X9. Once [with_fees_and_nonce] has returned, its five fields are
    never refreshed: a second call on the same dictionary, under any
    configuration and whatever the node then answers, changes nothing.
    A transaction that is filled again keeps its first nonce and fees. *)
Theorem with_fees_and_nonce_fills_once cfg n (tx : dict) :
  snd (with_fees_and_nonce cfg n tx) = Ok tt ->
  forall cfg' n',
    fst (with_fees_and_nonce cfg' n' (fst (with_fees_and_nonce cfg n tx)))
    = fst (with_fees_and_nonce cfg n tx).
Proof.
  intros Hok cfg' n'.
  destruct (with_fees_and_nonce_fills cfg n tx Hok)
    as (max_fee & tip & address & count & _ & _ & _ & Hk).
  apply map_eq. intros k.
  destruct (decide (k ∈ fee_nonce_fields)) as [Hin|Hout].
  - rewrite (Hk k Hin). apply with_fees_and_nonce_keeps. apply Hk, Hin.
  - now apply with_fees_and_nonce_others.
Qed.

Lemma with_fees_and_nonce_fills_once_witness :
  fst (with_fees_and_nonce relay_cfg priced_node
         (fst (with_fees_and_nonce sample_cfg sample_node ∅)))
  = fst (with_fees_and_nonce sample_cfg sample_node ∅).
Proof.
  apply (with_fees_and_nonce_fills_once sample_cfg sample_node ∅). reflexivity.
Defined.

(** X10. [tx = with_fees_and_nonce(tx); tx = estimate_and_fill_gas(tx);
    tx_hash = send_signed(tx)], as every handler runs it.  If filling
    fees and nonce raises, nothing is signed or sent.  Otherwise the
    transaction handed to [send_signed] keeps every field the built
    transaction had, differs from it at most in [gas] and the five fee
    and nonce fields, and has those five; gas is estimated on the filled
    transaction, and an absent [gas] becomes [estimate * 12 // 10], which
    for an estimate [g >= 0] lies between [g] and [1.2 g]; when the
    estimate fails, [gas] stays as it was. *)
Theorem fill_and_send_outcome cfg n (tx : dict) s :
  (forall e, snd (with_fees_and_nonce cfg n tx) = Raise e ->
     fill_and_send cfg n tx s = (s, Raise e)) /\
  (snd (with_fees_and_nonce cfg n tx) = Ok tt ->
   exists tx' s',
     fill_and_send cfg n tx s = send_signed cfg n tx' s' /\
     submissions (events s') = submissions (events s) /\
     (forall k v, tx !! k = Some v -> tx' !! k = Some v) /\
     (forall k, k ∉ filled_fields -> tx' !! k = tx !! k) /\
     (forall k, k ∈ fee_nonce_fields -> is_Some (tx' !! k)) /\
     (forall g, estimate_gas n (fst (with_fees_and_nonce cfg n tx)) = Ok g ->
        tx !! "gas"%string = None ->
        tx' !! "gas"%string = Some (VInt (g * 12 / 10)) /\
        (0 <= g -> g <= g * 12 / 10 /\ 5 * (g * 12 / 10) <= 6 * g)) /\
     (forall e, estimate_gas n (fst (with_fees_and_nonce cfg n tx)) = Raise e ->
        tx' !! "gas"%string = tx !! "gas"%string)).
Proof.
  split.
  - intros e He. unfold fill_and_send, returned, bind, lift. rewrite He. reflexivity.
  - intros Hok.
    destruct (with_fees_and_nonce_fills cfg n tx Hok)
      as (max_fee & tip & address & count & _ & _ & _ & Hk).
    set (tx1 := fst (with_fees_and_nonce cfg n tx)) in *.
    assert (Hgas1 : tx1 !! "gas"%string = tx !! "gas"%string).
    { apply with_fees_and_nonce_others. unfold fee_nonce_fields. intros H.
      repeat (apply elem_of_cons in H as [H|H]; [discriminate H|]).
      now apply elem_of_nil in H. }
    assert (Hrun : fill_and_send cfg n tx s
                   = bind (estimate_and_fill_gas n tx1) (send_signed cfg n) s).
    { unfold fill_and_send, returned, bind at 1, lift. rewrite Hok. reflexivity. }
    destruct (estimate_gas n tx1) as [g|e] eqn:Eg.
    + exists (setdefault "gas" (VInt (g * 12 / 10)) tx1), s.
      split.
      { rewrite Hrun. unfold bind.
        now rewrite (estimate_and_fill_gas_estimated _ _ _ _ Eg). }
      split; [reflexivity|].
      split.
      { intros k v Hv. apply lookup_setdefault_keep.
        now apply with_fees_and_nonce_keeps. }
      split.
      { intros k Hout. unfold filled_fields in Hout.
        apply not_elem_of_cons in Hout as [Hg Hout].
        rewrite lookup_setdefault_ne by congruence.
        now apply with_fees_and_nonce_others. }
      split.
      { intros k Hin. exists (default (filled_value cfg max_fee tip count k) (tx !! k)).
        apply lookup_setdefault_keep. now apply Hk. }
      split.
      { intros g' [= <-] Hnone. split.
        - unfold setdefault. rewrite Hgas1, Hnone. apply lookup_insert_eq.
        - intros Hg. split.
          + apply Z.div_le_lower_bound; lia.
          + pose proof (Z.mul_div_le (g * 12) 10 ltac:(lia)). lia. }
      intros e [=].
    + exists tx1, (set_events (fun l => l ++ [gas_warning e]) s).
      split.
      { rewrite Hrun. unfold bind.
        now rewrite (estimate_and_fill_gas_failed _ _ _ _ Eg). }
      split.
      { cbn [events set_events]. rewrite submissions_app. cbn. apply app_nil_r. }
      split; [intros k v Hv; now apply with_fees_and_nonce_keeps|].
      split.
      { intros k Hout. unfold filled_fields in Hout.
        apply not_elem_of_cons in Hout as [_ Hout].
        now apply with_fees_and_nonce_others. }
      split.
      { intros k Hin. exists (default (filled_value cfg max_fee tip count k) (tx !! k)).
        now apply Hk. }
      split; [intros g [=]|].
      intros e' _. exact Hgas1.
Qed.

Lemma fill_and_send_outcome_witness :
  fill_and_send sample_cfg silent_node ∅ initial_state
  = (initial_state, Raise (NodeError "timeout")) /\
  exists tx' s', fill_and_send sample_cfg sample_node ∅ initial_state
                 = send_signed sample_cfg sample_node tx' s' /\
                 tx' !! "gas"%string = Some (VInt 120000).
Proof.
  split.
  - destruct (fill_and_send_outcome sample_cfg silent_node ∅ initial_state) as [Hfail _].
    apply Hfail. reflexivity.
  - destruct (fill_and_send_outcome sample_cfg sample_node ∅ initial_state) as [_ Hok].
    destruct (Hok eq_refl) as (tx' & s' & Hrun & _ & _ & _ & _ & Hgas & _).
    exists tx', s'. split; [exact Hrun|].
    destruct (Hgas 100000 eq_refl (lookup_empty _)) as [Hg _]. exact Hg.
Defined.

(** ** Submissions of the handlers *)

Lemma log_swap_run cfg n now h meta s :
  log_swap cfg n now h meta s
  = (set_events (fun l => l ++ log_records cfg n now h meta) s, Ok tt).
Proof.
  unfold log_swap, log_records, bind, emit, try_except, lift, ret.
  destruct s as [ev c t]. unfold set_events. cbn.
  destruct (log_table cfg); cbn.
  - destruct (put_item_fault n); cbn; now rewrite <- app_assoc.
  - reflexivity.
Qed.

Lemma silent_ret {A} (a : A) : silent (ret a).
Proof. intros s. reflexivity. Qed.

Lemma silent_raise {A} e : silent (@raise A e).
Proof. intros s. reflexivity. Qed.

Lemma silent_lift {A} (r : result A) : silent (lift r).
Proof. intros s. reflexivity. Qed.

Lemma silent_emit e :
  match e with SendRaw _ _ => False | _ => True end -> silent (emit e).
Proof.
  intros He s. cbn [emit fst events set_events]. rewrite submissions_app.
  destruct e; try contradiction; cbn; apply app_nil_r.
Qed.

Lemma silent_bind {A B} (m : M A) (k : A -> M B) :
  silent m -> (forall a, silent (k a)) -> silent (bind m k).
Proof.
  intros Hm Hk s. unfold bind. specialize (Hm s).
  destruct (m s) as [s' [a|e]]; cbn [fst] in *.
  - now rewrite Hk.
  - exact Hm.
Qed.

Lemma silent_try_except {A} (m : M A) (h : exn -> M A) :
  silent m -> (forall e, silent (h e)) -> silent (try_except m h).
Proof.
  intros Hm Hh s. unfold try_except. specialize (Hm s).
  destruct (m s) as [s' [a|e]]; cbn [fst] in *.
  - exact Hm.
  - now rewrite Hh.
Qed.

Create HintDb silent.
#[local] Hint Resolve silent_ret silent_raise silent_lift : silent.
#[local] Hint Extern 1 (silent (emit _)) => (apply silent_emit; exact I) : silent.

Ltac silent :=
  repeat first
    [ progress intros
    | apply silent_bind
    | apply silent_try_except
    | solve [auto with silent]
    | match goal with |- silent (match ?x with _ => _ end) => destruct x end
    | match goal with |- silent (if ?x then _ else _) => destruct x end ].

Lemma silent_build n c address : silent (build n c address).
Proof. unfold build. silent. Qed.

Lemma silent_estimate_and_fill_gas n tx : silent (estimate_and_fill_gas n tx).
Proof. unfold estimate_and_fill_gas. silent. Qed.

Lemma silent_log_swap cfg n now h meta : silent (log_swap cfg n now h meta).
Proof. unfold log_swap. silent. Qed.

#[local] Hint Resolve silent_build silent_estimate_and_fill_gas silent_log_swap : silent.

Lemma submits_once_raise {A} e : submits_once (@raise A e).
Proof.
  intros s. exists []. cbn. rewrite app_nil_r.
  split; [reflexivity|]. split; [lia|discriminate].
Qed.

Lemma submits_once_bind_l {A B} (m : M A) (k : A -> M B) :
  silent m -> (forall a, submits_once (k a)) -> submits_once (bind m k).
Proof.
  intros Hm Hk s. unfold bind. specialize (Hm s).
  destruct (m s) as [s' [a|e]]; cbn [fst snd] in *.
  - destruct (Hk a s') as (sent & Hs & Hle & Hok). exists sent.
    rewrite Hs, Hm. auto.
  - exists []. rewrite app_nil_r. split; [exact Hm|]. split; [cbn; lia|discriminate].
Qed.

Lemma submits_once_bind_r {A B} (m : M A) (k : A -> M B) :
  submits_once m -> (forall a, silent (k a)) -> submits_once (bind m k).
Proof.
  intros Hm Hk s. unfold bind. destruct (Hm s) as (sent & Hs & Hle & Hok).
  destruct (m s) as [s' [a|e]]; cbn [fst snd] in *.
  - exists sent. rewrite Hk, Hs. split; [reflexivity|]. split; [exact Hle|].
    intros _. now apply Hok.
  - exists sent. split; [exact Hs|]. split; [exact Hle|discriminate].
Qed.

Lemma submits_once_try_raise {A} (m : M A) (f : exn -> exn) :
  submits_once m -> submits_once (try_except m (fun e => raise (f e))).
Proof.
  intros Hm s. unfold try_except, raise. destruct (Hm s) as (sent & Hs & Hle & Hok).
  destruct (m s) as [s' [a|e]]; cbn [fst snd] in *.
  - exists sent. auto.
  - exists sent. split; [exact Hs|]. split; [exact Hle|discriminate].
Qed.

Lemma submits_once_send_signed cfg n tx : submits_once (send_signed cfg n tx).
Proof.
  intros s. destruct (send_signed_unfold cfg n tx s) as (s0 & Hsub & ->).
  destruct (sign_transaction n tx) as [raw|e]; cbn [fst snd].
  - exists [(send_target cfg n, raw)]. cbn [events set_events].
    rewrite submissions_app, Hsub. split; [reflexivity|]. split; [cbn; lia|reflexivity].
  - exists []. rewrite app_nil_r. split; [exact Hsub|]. split; [cbn; lia|discriminate].
Qed.

Lemma submits_once_fill_and_send cfg n tx : submits_once (fill_and_send cfg n tx).
Proof.
  unfold fill_and_send.
  apply submits_once_bind_l; [silent|intros tx1].
  apply submits_once_bind_l; [silent|intros tx2].
  apply submits_once_send_signed.
Qed.

Ltac submits_once :=
  repeat first
    [ progress intros
    | apply submits_once_raise
    | apply submits_once_try_raise
    | apply submits_once_bind_r; [apply submits_once_fill_and_send | solve [silent]]
    | apply submits_once_bind_l; [solve [silent] | ]
    | match goal with |- submits_once (match ?x with _ => _ end) => destruct x end ].

(** X11. Every swap handler hands at most one transaction to an
    endpoint per request, on every body, node and state; a request that
    is answered with a transaction hash has handed over exactly one.
    Quoting, building, gas estimation and logging submit nothing. *)
Theorem swap_handlers_submit_once up cfg n now :
  (forall body, submits_once (v2_swap up cfg n now body)) /\
  (forall body, submits_once (v3_swap up cfg n now body)) /\
  (forall body, submits_once (v3_swap_multi up cfg n now body)).
Proof.
  split; [|split]; intros body.
  - unfold v2_swap. submits_once.
  - unfold v3_swap. submits_once.
  - unfold v3_swap_multi. submits_once.
Qed.

(** ** The multi-hop swap *)





(** ** Failures of the handlers *)

Lemma stateless_ret {A} (a : A) : stateless (ret a).
Proof. intros s. reflexivity. Qed.

Lemma stateless_lift {A} (r : result A) : stateless (lift r).
Proof. intros s. reflexivity. Qed.

Lemma stateless_raise {A} e : stateless (@raise A e).
Proof. intros s. reflexivity. Qed.

Lemma stateless_bind {A B} (m : M A) (k : A -> M B) :
  stateless m -> (forall a, stateless (k a)) -> stateless (bind m k).
Proof.
  intros Hm Hk s. unfold bind. specialize (Hm s).
  destruct (m s) as [s' [a|e]]; cbn [fst] in *; subst; [apply Hk|reflexivity].
Qed.

Lemma stateless_try_except {A} (m : M A) (h : exn -> M A) :
  stateless m -> (forall e, stateless (h e)) -> stateless (try_except m h).
Proof.
  intros Hm Hh s. unfold try_except. specialize (Hm s).
  destruct (m s) as [s' [a|e]]; cbn [fst] in *; subst; [reflexivity|apply Hh].
Qed.

Lemma fails_http_try {A} (m : M A) c p :
  fails_http (try_except m (fun e => raise (HTTPFailure c p e))).
Proof.
  intros s e. unfold try_except, raise.
  destruct (m s) as [s' [a|e']]; cbn [snd]; [discriminate|].
  intros [= <-]. reflexivity.
Qed.

Lemma fails_http_raise {A} e : is_http e = true -> fails_http (@raise A e).
Proof. intros He s e'. cbn. intros [= <-]. exact He. Qed.

Lemma fails_early_http {A} (m : M A) : fails_http m -> fails_early m.
Proof. intros Hm s e He Hn. rewrite (Hm s e He) in Hn. discriminate. Qed.

Lemma fails_early_bind {A B} (m : M A) (k : A -> M B) :
  stateless m -> (forall a, fails_early (k a)) -> fails_early (bind m k).
Proof.
  intros Hm Hk s. unfold bind. specialize (Hm s).
  destruct (m s) as [s' [a|e]]; cbn [fst snd] in *; subst.
  - apply Hk.
  - reflexivity.
Qed.

Ltac stateless :=
  repeat first
    [ progress intros
    | apply stateless_bind
    | apply stateless_try_except
    | apply stateless_ret
    | apply stateless_lift
    | apply stateless_raise
    | match goal with |- stateless (match ?x with _ => _ end) => destruct x end ].

Ltac fails_early :=
  repeat first
    [ progress intros
    | apply fails_early_http, fails_http_try
    | apply fails_early_http, fails_http_raise; reflexivity
    | apply fails_early_bind; [solve [stateless] | ]
    | match goal with |- fails_early (match ?x with _ => _ end) => destruct x end ].

Lemma fails_early_v2_swap up cfg n now body : fails_early (v2_swap up cfg n now body).
Proof. unfold v2_swap. fails_early. Qed.

Lemma fails_early_v3_swap up cfg n now body : fails_early (v3_swap up cfg n now body).
Proof. unfold v3_swap. fails_early. Qed.

Lemma fails_http_v3_swap_multi up cfg n now body :
  fails_http (v3_swap_multi up cfg n now body).
Proof.
  unfold v3_swap_multi. destruct (acct cfg).
  - apply fails_http_try.
  - now apply fails_http_raise.
Qed.

(** X13. What a failing swap request looks like.  [v2_swap] and
    [v3_swap] resolve the recipient and fetch the quote before their
    [try]: a failure there leaves the handler as the raw exception (not
    an [HTTPException]), and then nothing has been built, sent or
    logged.  [v3_swap_multi] does all of it inside its [try]: each of its
    failures is an [HTTPException]. *)
Theorem swap_failures_envelope up cfg n now :
  (forall body s e,
     snd (v2_swap up cfg n now body s) = Raise e -> is_http e = false ->
     fst (v2_swap up cfg n now body s) = s) /\
  (forall body s e,
     snd (v3_swap up cfg n now body s) = Raise e -> is_http e = false ->
     fst (v3_swap up cfg n now body s) = s) /\
  (forall body s e,
     snd (v3_swap_multi up cfg n now body s) = Raise e -> is_http e = true).
Proof.
  split; [|split]; intros body.
  - apply fails_early_v2_swap.
  - apply fails_early_v3_swap.
  - apply fails_http_v3_swap_multi.
Qed.

Lemma swap_failures_envelope_witness :
  snd (v2_swap no_upper sample_cfg sample_node sample_now bad_recipient_v2_body initial_state)
  = Raise ValueError /\
  fst (v2_swap no_upper sample_cfg sample_node sample_now bad_recipient_v2_body initial_state)
  = initial_state.
Proof.
  split; [reflexivity|].
  destruct (swap_failures_envelope no_upper sample_cfg sample_node sample_now) as [Hv2 _].
  apply (Hv2 bad_recipient_v2_body initial_state ValueError); reflexivity.
Defined.

(** ** Quotes *)

Ltac run_quote :=
  unfold try_except, bind, lift, ret, raise;
  repeat match goal with
         | |- context [match ?r with Ok _ => _ | Raise _ => _ end] => destruct r
         end.

Lemma stateless_quotes up n :
  (forall body, stateless (v2_quote up n body)) /\
  (forall body, stateless (v3_quote up n body)) /\
  (forall body, stateless (v3_quote_multi up n body)).
Proof.
  split; [|split]; intros body.
  - unfold v2_quote. stateless.
  - unfold v3_quote. stateless.
  - unfold v3_quote_multi. stateless.
Qed.

(** X14. The three quote handlers change nothing: they build, sign,
    send and log nothing and leave the limiter's state alone, and they
    need no signer.  Each of their failures, whether the body does not
    parse or the node refuses, is answered with HTTP 400 and the
    handler's own message prefix. *)
Theorem quotes_are_read_only up n :
  (forall body s,
     fst (v2_quote up n body s) = s /\
     forall e, snd (v2_quote up n body s) = Raise e ->
       exists cause, e = HTTPFailure 400 "v2 quote failed: " cause) /\
  (forall body s,
     fst (v3_quote up n body s) = s /\
     forall e, snd (v3_quote up n body s) = Raise e ->
       exists cause, e = HTTPFailure 400 "v3 quote failed: " cause) /\
  (forall body s,
     fst (v3_quote_multi up n body s) = s /\
     forall e, snd (v3_quote_multi up n body s) = Raise e ->
       exists cause, e = HTTPFailure 400 "v3 multihop quote failed: " cause).
Proof.
  destruct (stateless_quotes up n) as (H2 & H3 & Hm).
  split; [|split]; intros body s;
    (split; [first [apply H2 | apply H3 | apply Hm]|]); intros e.
  - unfold v2_quote. run_quote; cbn [snd]; intros [=]; subst; eauto.
  - unfold v3_quote. run_quote; cbn [snd]; intros [=]; subst; eauto.
  - unfold v3_quote_multi. run_quote; cbn [snd]; intros [=]; subst; eauto.
Qed.

Lemma quotes_are_read_only_witness :
  fst (v2_quote no_upper sample_node bad_quote initial_state) = initial_state /\
  exists cause,
    snd (v2_quote no_upper sample_node bad_quote initial_state)
    = Raise (HTTPFailure 400 "v2 quote failed: " cause).
Proof.
  destruct (quotes_are_read_only no_upper sample_node) as (Hv2 & _ & _).
  destruct (Hv2 bad_quote initial_state) as [Hstate Hfail].
  split; [exact Hstate|].
  destruct (Hfail (HTTPFailure 400 "v2 quote failed: " ValueError) eq_refl) as [cause Hc].
  exists cause. rewrite <- Hc. reflexivity.
Defined.







(** ** Spelling of addresses in a route *)

Lemma unhexlify_lower s : unhexlify (lower s) = unhexlify s.
Proof.
  induction s as [| c | h l r IH] using string_pair_ind; cbn [lower unhexlify].
  - reflexivity.
  - reflexivity.
  - now rewrite !hex_digit_value_lower, IH.
Qed.

Lemma same_address_valid t t' :
  same_address t t' -> is_hex_address t = is_hex_address t'.
Proof.
  unfold same_address, is_hex_address. intros H.
  rewrite <- (length_lower (remove_0x_prefix t)), <- (all_hex_lower (remove_0x_prefix t)).
  rewrite <- (length_lower (remove_0x_prefix t')), <- (all_hex_lower (remove_0x_prefix t')).
  now rewrite H.
Qed.

Lemma same_address_raw t t' : same_address t t' -> raw_address t = raw_address t'.
Proof.
  unfold same_address, raw_address. intros H.
  rewrite <- (unhexlify_lower (remove_0x_prefix t)), <- (unhexlify_lower (remove_0x_prefix t')).
  now rewrite H.
Qed.

Lemma address_bytes_cases up t :
  address_bytes up t = if is_hex_address t then Ok (raw_address t) else Raise ValueError.
Proof.
  destruct (is_hex_address t) eqn:E.
  - now apply address_bytes_valid.
  - now apply address_bytes_invalid.
Qed.

Lemma address_bytes_spelling up up' t t' :
  same_address t t' -> address_bytes up t = address_bytes up' t'.
Proof.
  intros H. rewrite !address_bytes_cases.
  now rewrite (same_address_valid _ _ H), (same_address_raw _ _ H).
Qed.

Lemma encode_hops_spelling up up' tokens tokens' fees :
  Forall2 same_address tokens tokens' ->
  forall todo i path,
    encode_hops up tokens fees todo i path = encode_hops up' tokens' fees todo i path.
Proof.
  intros H. induction todo as [|todo IH]; intros i path; [reflexivity|].
  cbn [encode_hops]. unfold item.
  destruct (tokens !! i) as [t|] eqn:Et.
  - destruct (Forall2_lookup_l _ _ _ _ _ H Et) as (t' & -> & Hsame).
    cbn [rbind]. rewrite (address_bytes_spelling up up' t t' Hsame).
    destruct (address_bytes up' t') as [a|e]; cbn [rbind]; [|reflexivity].
    destruct (fees !! i) as [f|]; cbn [rbind]; [|reflexivity].
    destruct (int_to_bytes3 f) as [b|e]; cbn [rbind]; [|reflexivity].
    apply IH.
  - destruct (tokens' !! i) as [t'|] eqn:Et'; [|reflexivity].
    destruct (Forall2_lookup_r _ _ _ _ _ H Et') as (t & Ht & _). congruence.
Qed.

(** X16. [encode_v3_path] does not depend on how an address is spelled:
    routes whose tokens agree up to letter case and the optional [0x] or
    [0X] prefix give the same bytes, or fail with the same exception,
    and the checksum capitalisation plays no part in either. *)
Theorem encode_v3_path_spelling up up' tokens tokens' fees :
  Forall2 same_address tokens tokens' ->
  encode_v3_path up tokens fees = encode_v3_path up' tokens' fees.
Proof.
  intros H. unfold encode_v3_path.
  rewrite (Forall2_length _ _ _ H).
  destruct (negb _); [reflexivity|].
  rewrite (encode_hops_spelling up up' tokens tokens' fees H).
  destruct (encode_hops up' tokens' fees (length fees) 0 []) as [path|e];
    cbn [rbind]; [|reflexivity].
  unfold last_item.
  destruct (Forall2_last _ _ _ H) as [t t' Hsame|]; cbn [rbind]; [|reflexivity].
  now rewrite (address_bytes_spelling up up' t t' Hsame).
Qed.

Lemma encode_v3_path_spelling_witness :
  encode_v3_path no_upper [token_a; token_b] [3000]
  = encode_v3_path (fun _ _ => true) [token_a_bare; token_b_shouting] [3000].
Proof.
  apply (encode_v3_path_spelling no_upper (fun _ _ => true)
           [token_a; token_b] [token_a_bare; token_b_shouting] [3000]).
  repeat (constructor; [reflexivity|]). constructor.
Defined.

Lemma encode_v3_path_decodes up tokens fees path :
  encode_v3_path up tokens fees = Ok path ->
  decode_path (length path) path = Some (map raw_address tokens, fees).
Proof.
  intros Henc. pose proof (encode_v3_path_outcome up tokens fees) as H.
  rewrite Henc in H. destruct H as (Hcount & Ht & Hf & ->).
  assert (Hlen : length (map raw_address tokens) = S (length fees))
    by (rewrite length_map; lia).
  assert (H20 : Forall (fun a => length a = 20%nat) (map raw_address tokens)).
  { apply Forall_map. eapply Forall_impl; [exact Ht|].
    intros t Vt. now destruct (raw_address_valid t Vt). }
  apply decode_spec_path; [exact Hlen|exact H20|exact Hf|].
  rewrite length_spec_path; [lia|rewrite !length_map; lia|exact H20|].
  apply Forall_map. apply Forall_forall. reflexivity.
Qed.

(** X17. Two routes that [encode_v3_path] maps to the same bytes are the
    same route: their tokens stand for the same addresses, in order, and
    their fee tiers are equal.  No two different routes share an
    encoding, one-token routes included. *)
Theorem encode_v3_path_injective up up' tokens tokens' fees fees' path :
  encode_v3_path up tokens fees = Ok path ->
  encode_v3_path up' tokens' fees' = Ok path ->
  map raw_address tokens = map raw_address tokens' /\ fees = fees'.
Proof.
  intros H1 H2.
  apply encode_v3_path_decodes in H1. apply encode_v3_path_decodes in H2.
  rewrite H1 in H2. now injection H2.
Qed.

Lemma encode_v3_path_injective_witness :
  map raw_address [token_a; token_b] = map raw_address [token_a_bare; token_b_shouting] /\
  [3000] = [3000].
Proof.
  apply (encode_v3_path_injective no_upper no_upper
           [token_a; token_b] [token_a_bare; token_b_shouting] [3000] [3000]
           (spec_path [raw_address token_a; raw_address token_b] [be3 3000]));
    reflexivity.
Defined.

(** ** Receipts *)

(** X18. [fetch_and_log_receipt]: when the node has no receipt, or the
    call fails, the answer is HTTP 400 and nothing is logged.  When the
    node has one, the four receipt fields are returned and handed to
    [log_swap], which records them (once in the log, once in the table
    when one is configured); a failure of the table does not fail the
    request.  Nothing is ever submitted. *)
Theorem fetch_and_log_receipt_outcome cfg n now get tx_hash s :
  (forall e, get tx_hash = Raise e ->
     fetch_and_log_receipt cfg n now get tx_hash s
     = (s, Raise (HTTPFailure 400 "receipt fetch failed: " e))) /\
  (forall rc, get tx_hash = Ok rc ->
     fetch_and_log_receipt cfg n now get tx_hash s
     = (set_events (fun l => l ++ log_records cfg n now tx_hash (receipt_meta rc)) s, Ok rc) /\
     submissions (events (fst (fetch_and_log_receipt cfg n now get tx_hash s)))
     = submissions (events s)).
Proof.
  split.
  - intros e He. unfold fetch_and_log_receipt, try_except, bind, lift, raise.
    now rewrite He.
  - intros rc Hrc.
    assert (Hrun : fetch_and_log_receipt cfg n now get tx_hash s
                   = (set_events (fun l => l ++ log_records cfg n now tx_hash (receipt_meta rc)) s,
                      Ok rc)).
    { unfold fetch_and_log_receipt, try_except, bind at 1, lift. rewrite Hrc.
      unfold bind. fold (receipt_meta rc). rewrite log_swap_run. reflexivity. }
    split; [exact Hrun|].
    rewrite Hrun. cbn [fst events set_events]. rewrite submissions_app.
    unfold log_records. destruct (log_table cfg); [destruct (put_item_fault n)|];
      cbn; apply app_nil_r.
Qed.

Lemma fetch_and_log_receipt_outcome_witness :
  fetch_and_log_receipt shared_cfg sample_node sample_now no_receipt "0xabcd" initial_state
  = (initial_state, Raise (HTTPFailure 400 "receipt fetch failed: " (NodeError "not found"))).
Proof.
  destruct (fetch_and_log_receipt_outcome shared_cfg sample_node sample_now no_receipt
              "0xabcd"%string initial_state) as [Hmissing _].
  apply Hmissing. reflexivity.
Defined.

(** ** The log table and the caller *)

Lemma outside_table_app l1 l2 :
  outside_table (l1 ++ l2) = outside_table l1 ++ outside_table l2.
Proof. unfold outside_table. apply omap_app. Qed.

Lemma agree_ret {A} (a : A) : agree (ret a) (ret a).
Proof. intros s1 s2 H. split; [reflexivity|exact H]. Qed.

Lemma agree_raise {A} e : agree (@raise A e) (raise e).
Proof. intros s1 s2 H. split; [reflexivity|exact H]. Qed.

Lemma agree_lift {A} (r : result A) : agree (lift r) (lift r).
Proof. intros s1 s2 H. split; [reflexivity|exact H]. Qed.

Lemma agree_emit e : agree (emit e) (emit e).
Proof.
  intros s1 s2 H. split; [reflexivity|].
  cbn [emit fst events set_events]. now rewrite !outside_table_app, H.
Qed.

Lemma agree_bind {A B} (m1 m2 : M A) (k1 k2 : A -> M B) :
  agree m1 m2 -> (forall a, agree (k1 a) (k2 a)) -> agree (bind m1 k1) (bind m2 k2).
Proof.
  intros Hm Hk s1 s2 H. unfold bind. destruct (Hm s1 s2 H) as [Hr Hs].
  destruct (m1 s1) as [s1' r1], (m2 s2) as [s2' r2]; cbn [fst snd] in *. subst r2.
  destruct r1 as [a|e]; [now apply Hk|]. split; [reflexivity|exact Hs].
Qed.

Lemma agree_try_except {A} (m1 m2 : M A) (h1 h2 : exn -> M A) :
  agree m1 m2 -> (forall e, agree (h1 e) (h2 e)) ->
  agree (try_except m1 h1) (try_except m2 h2).
Proof.
  intros Hm Hh s1 s2 H. unfold try_except. destruct (Hm s1 s2 H) as [Hr Hs].
  destruct (m1 s1) as [s1' r1], (m2 s2) as [s2' r2]; cbn [fst snd] in *. subst r2.
  destruct r1 as [a|e]; [|now apply Hh]. split; [reflexivity|exact Hs].
Qed.

Lemma outside_table_log_records cfg n now h meta :
  outside_table (log_records cfg n now h meta) = [LogSwap h meta].
Proof.
  unfold log_records. destruct (log_table cfg); [destruct (put_item_fault n)|];
    reflexivity.
Qed.

Lemma agree_log_swap cfg1 n1 cfg2 n2 now h meta :
  agree (log_swap cfg1 n1 now h meta) (log_swap cfg2 n2 now h meta).
Proof.
  intros s1 s2 H. rewrite !log_swap_run. split; [reflexivity|].
  cbn [fst events set_events].
  now rewrite !outside_table_app, !outside_table_log_records, H.
Qed.

Ltac agree_with special :=
  repeat first
    [ progress intros
    | special
    | apply agree_log_swap
    | apply agree_bind
    | apply agree_try_except
    | apply agree_ret
    | apply agree_raise
    | apply agree_lift
    | apply agree_emit
    | match goal with
      | |- agree (match ?x with _ => _ end) (match ?x with _ => _ end) => destruct x
      end ].

Lemma agree_fill_and_send cfg n tx table fault :
  agree (fill_and_send (with_log_table table cfg) (with_put_item_fault fault n) tx)
        (fill_and_send cfg n tx).
Proof.
  change (fill_and_send (with_log_table table cfg) (with_put_item_fault fault n) tx)
    with (fill_and_send cfg n tx).
  unfold fill_and_send, estimate_and_fill_gas, send_signed. agree_with fail.
Qed.

Lemma agree_build n c address fault :
  agree (build (with_put_item_fault fault n) c address) (build n c address).
Proof. unfold build. agree_with fail. Qed.

Ltac agree_handler :=
  agree_with ltac:(first [apply agree_fill_and_send | apply agree_build]).

Lemma agree_v2_swap up cfg n now table fault body :
  agree (v2_swap up (with_log_table table cfg) (with_put_item_fault fault n) now body)
        (v2_swap up cfg n now body).
Proof.
  unfold v2_swap. change (acct (with_log_table table cfg)) with (acct cfg).
  destruct (acct cfg); agree_handler.
Qed.

Lemma agree_v3_swap up cfg n now table fault body :
  agree (v3_swap up (with_log_table table cfg) (with_put_item_fault fault n) now body)
        (v3_swap up cfg n now body).
Proof.
  unfold v3_swap. change (acct (with_log_table table cfg)) with (acct cfg).
  destruct (acct cfg); agree_handler.
Qed.

Lemma agree_v3_swap_multi up cfg n now table fault body :
  agree (v3_swap_multi up (with_log_table table cfg) (with_put_item_fault fault n) now body)
        (v3_swap_multi up cfg n now body).
Proof.
  unfold v3_swap_multi. change (acct (with_log_table table cfg)) with (acct cfg).
  destruct (acct cfg); agree_handler.
Qed.

(** X19. The log table is invisible to the caller of a swap.  Whether
    a log table is configured, and whether its [put_item] works or
    fails, changes neither the answer of a swap handler nor anything it
    builds, sends or writes to the log: from the same state, the two
    runs return the same result and leave the same events once the
    table's own records are put aside. *)
Theorem log_table_is_invisible up cfg n now table fault s :
  (forall body,
     snd (v2_swap up (with_log_table table cfg) (with_put_item_fault fault n) now body s)
     = snd (v2_swap up cfg n now body s) /\
     outside_table (events (fst (v2_swap up (with_log_table table cfg)
                                   (with_put_item_fault fault n) now body s)))
     = outside_table (events (fst (v2_swap up cfg n now body s)))) /\
  (forall body,
     snd (v3_swap up (with_log_table table cfg) (with_put_item_fault fault n) now body s)
     = snd (v3_swap up cfg n now body s) /\
     outside_table (events (fst (v3_swap up (with_log_table table cfg)
                                   (with_put_item_fault fault n) now body s)))
     = outside_table (events (fst (v3_swap up cfg n now body s)))) /\
  (forall body,
     snd (v3_swap_multi up (with_log_table table cfg) (with_put_item_fault fault n) now body s)
     = snd (v3_swap_multi up cfg n now body s) /\
     outside_table (events (fst (v3_swap_multi up (with_log_table table cfg)
                                   (with_put_item_fault fault n) now body s)))
     = outside_table (events (fst (v3_swap_multi up cfg n now body s)))).
Proof.
  split; [|split]; intros body.
  - now apply agree_v2_swap.
  - now apply agree_v3_swap.
  - now apply agree_v3_swap_multi.
Qed.
